(** * Narrow-phase collision detection and ray queries (CSC8503Common)

    A shallow embedding of [CollisionDetection.cpp] and of the part of
    [GameObject.cpp] it relies on.

    The C++ code computes on [float].  The arithmetic is kept abstract in
    the class [Float] so that every routine is embedded once and can be read
    against its source, and is then used at two instances:

    - [Binary32]: IEEE-754 single precision, round to nearest even, given by
      the Standard Library's [SpecFloat] with precision 24 and exponent
      bound 128.  It is executable and is used to run the code on concrete
      inputs.
    - [RealFloat]: the real numbers.  Rounding, overflow and NaN are
      idealised away; it is used for statements quantified over all inputs.

    Integer code ([operator<] of the manifold, the kind flags) is modelled
    on [Z] with the wrap-around of the C++ types written out. *)

From Stdlib Require Import ZArith List Bool Lia.
From Stdlib Require Import Reals Lra.
From Stdlib Require Import Floats.SpecFloat.
Import ListNotations.

Set Implicit Arguments.

(** ** The arithmetic of [float] *)

Class Float : Type := {
  float : Type;
  of_Z : Z -> float;
  fadd : float -> float -> float;
  fsub : float -> float -> float;
  fmul : float -> float -> float;
  fdiv : float -> float -> float;
  fneg : float -> float;
  fabs : float -> float;
  fsqrt : float -> float;
  flt : float -> float -> bool;
  fle : float -> float -> bool;
  feq : float -> float -> bool;
  FLT_MAX : float
}.

Declare Scope float_scope.
Delimit Scope float_scope with fl.
Notation "x + y" := (fadd x y) : float_scope.
Notation "x - y" := (fsub x y) : float_scope.
Notation "x * y" := (fmul x y) : float_scope.
Notation "x / y" := (fdiv x y) : float_scope.
Notation "- x" := (fneg x) : float_scope.
Notation "x <? y" := (flt x y) : float_scope.
Notation "x >? y" := (flt y x) : float_scope.
Notation "x <=? y" := (fle x y) : float_scope.
Notation "x =? y" := (feq x y) : float_scope.

(** IEEE-754 binary32. *)
Module B32.
Definition prec : Z := 24.
Definition emax : Z := 128.
Definition of_Z (n : Z) : spec_float := binary_normalize prec emax n 0 false.
Definition max_float : spec_float := SFmax_float prec emax.
End B32.

Definition Binary32 : Float := {|
  float := spec_float;
  of_Z := B32.of_Z;
  fadd := SFadd B32.prec B32.emax;
  fsub := SFsub B32.prec B32.emax;
  fmul := SFmul B32.prec B32.emax;
  fdiv := SFdiv B32.prec B32.emax;
  fneg := SFopp;
  fabs := SFabs;
  fsqrt := SFsqrt B32.prec B32.emax;
  flt := SFltb;
  fle := SFleb;
  feq := SFeqb;
  FLT_MAX := B32.max_float
|}.

(** Exact real arithmetic; [FLT_MAX] is the real value of the largest finite
    binary32 number, (2^24 - 1) * 2^104. *)
Module RF.
Definition ltb (a b : R) : bool := if Rlt_dec a b then true else false.
Definition leb (a b : R) : bool := if Rle_dec a b then true else false.
Definition eqb (a b : R) : bool := if Req_dec_T a b then true else false.
Definition max_float : R := IZR 340282346638528859811704183484516925440.
End RF.

Definition RealFloat : Float := {|
  float := R;
  of_Z := IZR;
  fadd := Rplus;
  fsub := Rminus;
  fmul := Rmult;
  fdiv := Rdiv;
  fneg := Ropp;
  fabs := Rabs;
  fsqrt := sqrt;
  flt := RF.ltb;
  fle := RF.leb;
  feq := RF.eqb;
  FLT_MAX := RF.max_float
|}.

Section Vec.
Context {F : Float}.
Local Open Scope float_scope.

(** Literals of the source: [0.5f] is [of_Z 1 / of_Z 2] and [0.99f] is
    [of_Z 99 / of_Z 100]; the operands are exact and the division rounds
    correctly, which is what the compiler does with the decimal literal. *)
Definition f0 : float := of_Z 0.
Definition f1 : float := of_Z 1.
Definition lit (num den : Z) : float := of_Z num / of_Z den.

(** ** Vector3 *)

(** Modelled from the spec: [Common/Vector3.h] is not part of the sources;
    the spec treats the small maths library as given.  [Vector3] is the
    usual value type of three floats, its default constructor is the zero
    vector, and [Normalise] leaves a zero-length vector unchanged. *)
Record Vector3 : Type := mkV { vx : float; vy : float; vz : float }.

Definition Vzero : Vector3 := mkV f0 f0 f0.
Definition Vadd (a b : Vector3) : Vector3 :=
  mkV (vx a + vx b) (vy a + vy b) (vz a + vz b).
Definition Vsub (a b : Vector3) : Vector3 :=
  mkV (vx a - vx b) (vy a - vy b) (vz a - vz b).
Definition Vneg (a : Vector3) : Vector3 := mkV (- vx a) (- vy a) (- vz a).
Definition Vscale (a : Vector3) (s : float) : Vector3 :=
  mkV (vx a * s) (vy a * s) (vz a * s).
Definition Dot (a b : Vector3) : float :=
  (vx a * vx b) + (vy a * vy b) + (vz a * vz b).
Definition Cross (a b : Vector3) : Vector3 :=
  mkV ((vy a * vz b) - (vz a * vy b))
      ((vz a * vx b) - (vx a * vz b))
      ((vx a * vy b) - (vy a * vx b)).
Definition Length (a : Vector3) : float :=
  fsqrt ((vx a * vx a) + (vy a * vy a) + (vz a * vz a)).
Definition Normalised (a : Vector3) : Vector3 :=
  let length := Length a in
  if length =? f0 then a
  else let length := f1 / length in
       mkV (vx a * length) (vy a * length) (vz a * length).
Definition GetMaxElement (a : Vector3) : float :=
  let v := vx a in
  let v := if vy a >? v then vy a else v in
  if vz a >? v then vz a else v.

End Vec.

Notation "a [+] b" := (Vadd a b) (at level 50, left associativity).
Notation "a [-] b" := (Vsub a b) (at level 50, left associativity).
Notation "a [*] s" := (Vscale a s) (at level 40, left associativity).
Notation "[-] a" := (Vneg a) (at level 35, right associativity).

Section Maths.
Context {F : Float}.
Local Open Scope float_scope.

(** Modelled from the spec: [Common/Maths.h] is not part of the sources.
    [Maths::Clamp] returns the bound a value has passed, the value otherwise;
    on vectors it clamps each component. *)
Definition Clamp (value min max : float) : float :=
  if value <? min then min
  else if value >? max then max
  else value.

Definition ClampV (a mins maxs : Vector3) : Vector3 :=
  mkV (Clamp (vx a) (vx mins) (vx maxs))
      (Clamp (vy a) (vy mins) (vy maxs))
      (Clamp (vz a) (vz mins) (vz maxs)).

(** ** Quaternion, Matrix3 and Transform *)

(** Modelled from the spec: [Common/Quaternion.h] is not part of the
    sources.  The pose's orientation is a quaternion used as a rotation:
    [q * v] is the vector part of [q * (v, 0) * conjugate q]. *)
Record Quaternion : Type := mkQ { qx : float; qy : float; qz : float; qw : float }.

Definition Conjugate (q : Quaternion) : Quaternion :=
  mkQ (- qx q) (- qy q) (- qz q) (qw q).

Definition Qmul (a b : Quaternion) : Quaternion :=
  mkQ ((qx a * qw b) + (qw a * qx b) + (qy a * qz b) - (qz a * qy b))
      ((qy a * qw b) + (qw a * qy b) + (qz a * qx b) - (qx a * qz b))
      ((qz a * qw b) + (qw a * qz b) + (qx a * qy b) - (qy a * qx b))
      ((qw a * qw b) - (qx a * qx b) - (qy a * qy b) - (qz a * qz b)).

Definition Qrot (q : Quaternion) (v : Vector3) : Vector3 :=
  let newVec := Qmul (Qmul q (mkQ (vx v) (vy v) (vz v) f0)) (Conjugate q) in
  mkV (qx newVec) (qy newVec) (qz newVec).

Definition Qidentity : Quaternion := mkQ f0 f0 f0 f1.

(** Modelled from the spec: [Common/Matrix3.h] is not part of the sources.
    A 3x3 matrix in column-major order, [Matrix3(q)] the rotation matrix of
    the quaternion [q]. *)
Record Matrix3 : Type := mkM3 {
  m0 : float; m1 : float; m2 : float;
  m3 : float; m4 : float; m5 : float;
  m6 : float; m7 : float; m8 : float
}.

Definition two : float := of_Z 2.

Definition Matrix3_of_Quaternion (q : Quaternion) : Matrix3 :=
  let yy := qy q * qy q in
  let zz := qz q * qz q in
  let xy := qx q * qy q in
  let zw := qz q * qw q in
  let xz := qx q * qz q in
  let yw := qy q * qw q in
  let xx := qx q * qx q in
  let yz := qy q * qz q in
  let xw := qx q * qw q in
  mkM3 (f1 - two * yy - two * zz) (two * xy + two * zw) (two * xz - two * yw)
       (two * xy - two * zw) (f1 - two * xx - two * zz) (two * yz + two * xw)
       (two * xz + two * yw) (two * yz - two * xw) (f1 - two * xx - two * yy).

Definition M3mulV (m : Matrix3) (v : Vector3) : Vector3 :=
  mkV (vx v * m0 m + vy v * m3 m + vz v * m6 m)
      (vx v * m1 m + vy v * m4 m + vz v * m7 m)
      (vx v * m2 m + vy v * m5 m + vz v * m8 m).

(** Modelled from the spec: [Transform.h] is not part of the sources.  The
    pose is position, orientation and per-axis scale; a default-constructed
    pose sits at the origin with the identity orientation and unit scale;
    [GetMatrix] is the local-to-world matrix, translation * rotation *
    scale, and applying it to a point scales, rotates and then translates. *)
Record Transform : Type := mkTransform {
  GetPosition : Vector3;
  GetOrientation : Quaternion;
  GetScale : Vector3
}.

Definition Transform_default : Transform :=
  mkTransform Vzero Qidentity (mkV f1 f1 f1).
Definition SetPosition (t : Transform) (p : Vector3) : Transform :=
  mkTransform p (GetOrientation t) (GetScale t).
Definition SetScale (t : Transform) (s : Vector3) : Transform :=
  mkTransform (GetPosition t) (GetOrientation t) s.

Definition GetMatrix_apply (t : Transform) (v : Vector3) : Vector3 :=
  let scaled := mkV (vx v * vx (GetScale t)) (vy v * vy (GetScale t))
                    (vz v * vz (GetScale t)) in
  M3mulV (Matrix3_of_Quaternion (GetOrientation t)) scaled [+] GetPosition t.

(** ** Ray and Plane *)

(** Modelled from the spec: [Ray.h] and [Common/Plane.h] are not part of
    the sources.  A ray is an origin and a direction; a plane is a normal
    and a signed distance, [PlaneFromTri] builds it from three points and
    [GetPointOnPlane] is the normal scaled by minus the distance. *)
Record Ray : Type := mkRay { Ray_GetPosition : Vector3; Ray_GetDirection : Vector3 }.

Record RayCollision : Type := mkRayCollision {
  collidedAt : Vector3;
  rayDistance : float
}.

Record Plane : Type := mkPlane { Plane_GetNormal : Vector3; Plane_distance : float }.

Definition PlaneFromTri (v0 v1 v2 : Vector3) : Plane :=
  let v1v0 := v1 [-] v0 in
  let v2v0 := v2 [-] v0 in
  let normal := Normalised (Cross v1v0 v2v0) in
  mkPlane normal (- Dot v0 normal).

Definition GetPointOnPlane (p : Plane) : Vector3 :=
  Plane_GetNormal p [*] (- Plane_distance p).

(** ** Collision volumes *)

(** Modelled from the spec: [CollisionVolume.h] and the four volume headers
    are not part of the sources.  Every volume carries a local offset and
    kind-specific extents.  The kind tags are bit flags, so that the
    bitwise or of two tags is again a tag exactly when both are that tag,
    which is what the dispatcher's [pairType] relies on. *)
Inductive VolumeType : Type := AABB | OBB | Sphere | Capsule.

Definition VolumeType_to_int (t : VolumeType) : Z :=
  match t with
  | AABB => 1
  | OBB => 2
  | Sphere => 4
  | Capsule => 16
  end.

Record AABBVolume : Type := mkAABB {
  AABB_GetHalfDimensions : Vector3;
  AABB_GetOffset : Vector3
}.
Record OBBVolume : Type := mkOBB {
  OBB_GetHalfDimensions : Vector3;
  OBB_GetOffset : Vector3
}.
Record SphereVolume : Type := mkSphere {
  Sphere_GetRadius : float;
  Sphere_GetOffset : Vector3
}.
Record CapsuleVolume : Type := mkCapsule {
  Capsule_GetHalfHeight : float;
  Capsule_GetRadius : float;
  Capsule_GetOffset : Vector3
}.

Inductive CollisionVolume : Type :=
| VolAABB (v : AABBVolume)
| VolOBB (v : OBBVolume)
| VolSphere (v : SphereVolume)
| VolCapsule (v : CapsuleVolume).

Definition type (v : CollisionVolume) : VolumeType :=
  match v with
  | VolAABB _ => AABB
  | VolOBB _ => OBB
  | VolSphere _ => Sphere
  | VolCapsule _ => Capsule
  end.

Definition GetOffset (v : CollisionVolume) : Vector3 :=
  match v with
  | VolAABB a => AABB_GetOffset a
  | VolOBB o => OBB_GetOffset o
  | VolSphere s => Sphere_GetOffset s
  | VolCapsule c => Capsule_GetOffset c
  end.

(** The C-style reference casts of the dispatcher.  On the volume's own
    kind a cast is the identity.  The two box kinds have the same members
    (half sizes after the base part), so a cast between them reads the same
    data.  The remaining combinations never reach a cast in this code
    ([ObjectIntersection_table] below); they are given the base part and
    zero extents. *)
Definition as_AABB (v : CollisionVolume) : AABBVolume :=
  match v with
  | VolAABB a => a
  | VolOBB o => mkAABB (OBB_GetHalfDimensions o) (OBB_GetOffset o)
  | _ => mkAABB Vzero (GetOffset v)
  end.
Definition as_OBB (v : CollisionVolume) : OBBVolume :=
  match v with
  | VolOBB o => o
  | VolAABB a => mkOBB (AABB_GetHalfDimensions a) (AABB_GetOffset a)
  | _ => mkOBB Vzero (GetOffset v)
  end.
Definition as_Sphere (v : CollisionVolume) : SphereVolume :=
  match v with
  | VolSphere s => s
  | _ => mkSphere f0 (GetOffset v)
  end.
Definition as_Capsule (v : CollisionVolume) : CapsuleVolume :=
  match v with
  | VolCapsule c => c
  | _ => mkCapsule f0 f0 (GetOffset v)
  end.

(** ** GameObject and the contact manifold *)

(** [GameObject.cpp]: of the object's members the queries use the bounding
    volume (a null pointer after construction), the transform and the world
    identifier (an [int], -1 after construction). *)
Record GameObject : Type := mkGameObject {
  GetBoundingVolume : option CollisionVolume;
  GetTransform : Transform;
  GetWorldID : Z
}.

Definition GameObject_new : GameObject :=
  mkGameObject None Transform_default (-1).

(** Modelled from the spec: [CollisionDetection.h] is not part of the
    sources.  The manifold refers to the two bodies (null until a query sets
    them) and holds one contact point: two local anchors, a normal and a
    penetration depth; [AddContactPoint] stores these four values. *)
Record ContactPoint : Type := mkContactPoint {
  localA : Vector3;
  localB : Vector3;
  normal : Vector3;
  penetration : float
}.

Record CollisionInfo : Type := mkCollisionInfo {
  a : option GameObject;
  b : option GameObject;
  point : ContactPoint
}.

Definition CollisionInfo_new : CollisionInfo :=
  mkCollisionInfo None None (mkContactPoint Vzero Vzero Vzero f0).

Definition AddContactPoint (ci : CollisionInfo) (lA lB n : Vector3) (p : float)
  : CollisionInfo :=
  mkCollisionInfo (a ci) (b ci) (mkContactPoint lA lB n p).

Definition set_a (ci : CollisionInfo) (o : GameObject) : CollisionInfo :=
  mkCollisionInfo (Some o) (b ci) (point ci).
Definition set_b (ci : CollisionInfo) (o : GameObject) : CollisionInfo :=
  mkCollisionInfo (a ci) (Some o) (point ci).
Definition set_localA (ci : CollisionInfo) (v : Vector3) : CollisionInfo :=
  mkCollisionInfo (a ci) (b ci)
    (mkContactPoint v (localB (point ci)) (normal (point ci)) (penetration (point ci))).
Definition set_localB (ci : CollisionInfo) (v : Vector3) : CollisionInfo :=
  mkCollisionInfo (a ci) (b ci)
    (mkContactPoint (localA (point ci)) v (normal (point ci)) (penetration (point ci))).
Definition set_normal (ci : CollisionInfo) (v : Vector3) : CollisionInfo :=
  mkCollisionInfo (a ci) (b ci)
    (mkContactPoint (localA (point ci)) (localB (point ci)) v (penetration (point ci))).
Definition set_penetration (ci : CollisionInfo) (p : float) : CollisionInfo :=
  mkCollisionInfo (a ci) (b ci)
    (mkContactPoint (localA (point ci)) (localB (point ci)) (normal (point ci)) p).

End Maths.

(** ** Ray queries *)

Section RayQueries.
Context {F : Float}.
Local Open Scope float_scope.

(** Every query returns its boolean result together with the output record
    it was given, as the call leaves it. *)

Definition RayPlaneIntersection (r : Ray) (p : Plane) (collisions : RayCollision)
  : bool * RayCollision :=
  let ln := Dot (Plane_GetNormal p) (Ray_GetDirection r) in
  if ln =? f0 then (false, collisions)
  else
    let planePoint := GetPointOnPlane p in
    let pointDir := planePoint [-] Ray_GetPosition r in
    let d := Dot pointDir (Plane_GetNormal p) / ln in
    (true, mkRayCollision (Ray_GetPosition r [+] (Ray_GetDirection r [*] d))
                          (rayDistance collisions)).

(** One round of the first loop of [RayBoxIntersection]: the entry
    parameter of axis [i], -1 when the ray does not move along it. *)
Definition tVal (rayDir boxMin boxMax rayPos : float) : float :=
  if rayDir >? f0 then (boxMin - rayPos) / rayDir
  else if rayDir <? f0 then (boxMax - rayPos) / rayDir
  else of_Z (-1).

(** One round of the second loop: the point is outside the box on axis [i]. *)
Definition outside (intersection boxMin boxMax : float) : bool :=
  let epsilon := lit 1 10000 in
  (intersection + epsilon <? boxMin) || (intersection - epsilon >? boxMax).

Definition RayBoxIntersection (r : Ray) (boxPos boxSize : Vector3)
  (collision : RayCollision) : bool * RayCollision :=
  let boxMin := boxPos [-] boxSize in
  let boxMax := boxPos [+] boxSize in
  let rayPos := Ray_GetPosition r in
  let rayDir := Ray_GetDirection r in
  let tVals := mkV (tVal (vx rayDir) (vx boxMin) (vx boxMax) (vx rayPos))
                   (tVal (vy rayDir) (vy boxMin) (vy boxMax) (vy rayPos))
                   (tVal (vz rayDir) (vz boxMin) (vz boxMax) (vz rayPos)) in
  let bestT := GetMaxElement tVals in
  if bestT <? f0 then (false, collision)
  else
    let intersection := rayPos [+] (rayDir [*] bestT) in
    if outside (vx intersection) (vx boxMin) (vx boxMax) then (false, collision)
    else if outside (vy intersection) (vy boxMin) (vy boxMax) then (false, collision)
    else if outside (vz intersection) (vz boxMin) (vz boxMax) then (false, collision)
    else (true, mkRayCollision intersection bestT).

Definition RayAABBIntersection (r : Ray) (worldTransform : Transform)
  (volume : AABBVolume) (collision : RayCollision) : bool * RayCollision :=
  let boxPos := GetPosition worldTransform [+] AABB_GetOffset volume in
  let boxSize := AABB_GetHalfDimensions volume in
  RayBoxIntersection r boxPos boxSize collision.

Definition RayOBBIntersection (r : Ray) (worldTransform : Transform)
  (volume : OBBVolume) (collision : RayCollision) : bool * RayCollision :=
  let orientation := GetOrientation worldTransform in
  let position := GetPosition worldTransform [+] OBB_GetOffset volume in
  let transform := Matrix3_of_Quaternion orientation in
  let invTransform := Matrix3_of_Quaternion (Conjugate orientation) in
  let localRayPos := Ray_GetPosition r [-] position in
  let tempRay := mkRay (M3mulV invTransform localRayPos)
                       (M3mulV invTransform (Ray_GetDirection r)) in
  let (collided, collision) :=
    RayBoxIntersection tempRay Vzero (OBB_GetHalfDimensions volume) collision in
  if collided then
    (collided, mkRayCollision (M3mulV transform (collidedAt collision) [+] position)
                              (rayDistance collision))
  else (collided, collision).

Definition RaySphereIntersection (r : Ray) (worldTransform : Transform)
  (volume : SphereVolume) (collision : RayCollision) : bool * RayCollision :=
  let spherePos := GetPosition worldTransform [+] Sphere_GetOffset volume in
  let sphereRadius := Sphere_GetRadius volume in
  let dir := spherePos [-] Ray_GetPosition r in
  let sphereProj := Dot dir (Ray_GetDirection r) in
  if sphereProj <? f0 then (false, collision)
  else
    let point := Ray_GetPosition r [+] (Ray_GetDirection r [*] sphereProj) in
    let sphereDist := Length (point [-] spherePos) in
    if sphereDist >? sphereRadius then (false, collision)
    else
      let offset := fsqrt ((sphereRadius * sphereRadius) - (sphereDist * sphereDist)) in
      let rayDistance := sphereProj - offset in
      (true, mkRayCollision (Ray_GetPosition r [+] (Ray_GetDirection r [*] rayDistance))
                            rayDistance).

Definition RayCapsuleIntersection (r : Ray) (worldTransform : Transform)
  (volume : CapsuleVolume) (collision : RayCollision) : bool * RayCollision :=
  let centre := GetPosition worldTransform [+] Capsule_GetOffset volume in
  let extent := Qrot (GetOrientation worldTransform) (mkV f0 f1 f0)
                [*] (Capsule_GetHalfHeight volume - Capsule_GetRadius volume) in
  let top := centre [+] extent in
  let bottom := centre [-] extent in
  let normal := Ray_GetPosition r [-] centre in
  let capsuleDir := top [-] bottom in
  let point := Cross capsuleDir normal in
  let point := centre [+] (Normalised point [*] f1) in
  let capPlane := PlaneFromTri top bottom point in
  let (hit, collision) := RayPlaneIntersection r capPlane collision in
  if negb hit then (false, collision)
  else
    let capsuleLineLength := Length capsuleDir in
    let capsuleDir := Normalised capsuleDir in
    let rayCapDir := collidedAt collision [-] bottom in
    let dot := Clamp (Dot rayCapDir capsuleDir) f0 capsuleLineLength in
    let spherePos := bottom [+] (capsuleDir [*] dot) in
    let sphere := mkSphere (Capsule_GetRadius volume) Vzero in
    let t := SetPosition Transform_default spherePos in
    let t := SetScale t (mkV f1 f1 f1 [*] Capsule_GetRadius volume) in
    RaySphereIntersection r t sphere collision.

Definition RayIntersection (r : Ray) (object : GameObject) (collision : RayCollision)
  : bool * RayCollision :=
  let worldTransform := GetTransform object in
  match GetBoundingVolume object with
  | None => (false, collision)
  | Some volume =>
      match type volume with
      | AABB => RayAABBIntersection r worldTransform (as_AABB volume) collision
      | OBB => RayOBBIntersection r worldTransform (as_OBB volume) collision
      | Sphere => RaySphereIntersection r worldTransform (as_Sphere volume) collision
      | Capsule => RayCapsuleIntersection r worldTransform (as_Capsule volume) collision
      end
  end.

End RayQueries.

(** ** Pairwise narrow-phase tests *)

Section NarrowPhase.
Context {F : Float}.
Local Open Scope float_scope.

(** A volume built locally from extents alone, as in [SphereVolume
    sphere(radius)] and [AABBVolume aabb(halfDims)], has a zero offset. *)
Definition SphereVolume_new (r : float) : SphereVolume := mkSphere r Vzero.
Definition AABBVolume_new (h : Vector3) : AABBVolume := mkAABB h Vzero.

Definition OBBSupport (worldTransform : Transform) (worldDir : Vector3) : Vector3 :=
  let localDir := Qrot (Conjugate (GetOrientation worldTransform)) worldDir in
  let vertex := mkV (if vx localDir <? f0 then - lit 1 2 else lit 1 2)
                    (if vy localDir <? f0 then - lit 1 2 else lit 1 2)
                    (if vz localDir <? f0 then - lit 1 2 else lit 1 2) in
  GetMatrix_apply worldTransform vertex.

Definition SpherePosFromCapsule (capsule : CapsuleVolume) (capTransform : Transform)
  (otherObjPos : Vector3) : Vector3 :=
  let extentPosition := Qrot (GetOrientation capTransform) (mkV f0 f1 f0)
                        [*] (Capsule_GetHalfHeight capsule - Capsule_GetRadius capsule) in
  let capTop := GetPosition capTransform [+] Capsule_GetOffset capsule [+] extentPosition in
  let capBottom := GetPosition capTransform [+] Capsule_GetOffset capsule [-] extentPosition in
  let capsuleDir := capTop [-] capBottom in
  let capLineLength := Length capsuleDir in
  let capsuleDir := Normalised capsuleDir in
  let pointCapDir := otherObjPos [-] capBottom in
  let dot := Clamp (Dot pointCapDir capsuleDir) f0 capLineLength in
  capBottom [+] (capsuleDir [*] dot).

Definition ClosestPointOnLineSegment (a b point : Vector3) : Vector3 :=
  let ab := b [-] a in
  let t := Dot (point [-] a) ab / Dot ab ab in
  a [+] ab [*] Clamp t f0 f1.

Definition AABBTest (posA posB halfSizeA halfSizeB : Vector3) : bool :=
  let delta := posB [-] posA in
  let totalSize := halfSizeA [+] halfSizeB in
  (fabs (vx delta) <? vx totalSize) &&
  (fabs (vy delta) <? vy totalSize) &&
  (fabs (vz delta) <? vz totalSize).

Definition faces : list Vector3 :=
  [ mkV (of_Z (-1)) f0 f0; mkV f1 f0 f0;
    mkV f0 (of_Z (-1)) f0; mkV f0 f1 f0;
    mkV f0 f0 (of_Z (-1)); mkV f0 f0 f1 ].

(** The loop over the six faces: [distances[i]] paired with [faces[i]],
    the state is [(penetration, bestAxis)]. *)
Fixpoint bestFace (candidates : list (float * Vector3)) (state : float * Vector3)
  : float * Vector3 :=
  match candidates with
  | [] => state
  | (distance, face) :: rest =>
      if distance <? fst state then bestFace rest (distance, face)
      else bestFace rest state
  end.

Definition AABBIntersection (volumeA : AABBVolume) (worldTransformA : Transform)
  (volumeB : AABBVolume) (worldTransformB : Transform) (collisionInfo : CollisionInfo)
  : bool * CollisionInfo :=
  let boxAPos := GetPosition worldTransformA [+] AABB_GetOffset volumeA in
  let boxBPos := GetPosition worldTransformB [+] AABB_GetOffset volumeB in
  let boxASize := AABB_GetHalfDimensions volumeA in
  let boxBSize := AABB_GetHalfDimensions volumeB in
  let overlap := AABBTest boxAPos boxBPos boxASize boxBSize in
  if overlap then
    let maxA := boxAPos [+] boxASize in
    let minA := boxAPos [-] boxASize in
    let maxB := boxBPos [+] boxBSize in
    let minB := boxBPos [-] boxBSize in
    let distances :=
      [ vx maxB - vx minA; vx maxA - vx minB;
        vy maxB - vy minA; vy maxA - vy minB;
        vz maxB - vz minA; vz maxA - vz minB ] in
    let (penetration, bestAxis) := bestFace (combine distances faces) (FLT_MAX, Vzero) in
    (true, AddContactPoint collisionInfo Vzero Vzero bestAxis penetration)
  else (false, collisionInfo).

Definition SphereIntersection (volumeA : SphereVolume) (worldTransformA : Transform)
  (volumeB : SphereVolume) (worldTransformB : Transform) (collisionInfo : CollisionInfo)
  : bool * CollisionInfo :=
  let radii := Sphere_GetRadius volumeA + Sphere_GetRadius volumeB in
  let delta := (GetPosition worldTransformB [+] Sphere_GetOffset volumeB)
               [-] (GetPosition worldTransformA [+] Sphere_GetOffset volumeA) in
  let deltaLength := Length delta in
  if deltaLength <? radii then
    let penetration := radii - deltaLength in
    let normal := Normalised delta in
    let localA := normal [*] Sphere_GetRadius volumeA in
    let localB := ([-] normal) [*] Sphere_GetRadius volumeB in
    (true, AddContactPoint collisionInfo localA localB normal penetration)
  else (false, collisionInfo).

Definition CapsuleIntersection (volumeA : CapsuleVolume) (worldTransformA : Transform)
  (volumeB : CapsuleVolume) (worldTransformB : Transform) (collisionInfo : CollisionInfo)
  : bool * CollisionInfo :=
  let capExtPositionA := Qrot (GetOrientation worldTransformA) (mkV f0 f1 f0)
                         [*] (Capsule_GetHalfHeight volumeA - Capsule_GetRadius volumeA) in
  let capTopA := GetPosition worldTransformA [+] Capsule_GetOffset volumeA [+] capExtPositionA in
  let capBottomA := GetPosition worldTransformA [+] Capsule_GetOffset volumeA [-] capExtPositionA in
  let capExtPositionB := Qrot (GetOrientation worldTransformB) (mkV f0 f1 f0)
                         [*] (Capsule_GetHalfHeight volumeB - Capsule_GetRadius volumeB) in
  let capTopB := GetPosition worldTransformB [+] Capsule_GetOffset volumeB [+] capExtPositionB in
  let capBottomB := GetPosition worldTransformB [+] Capsule_GetOffset volumeB [-] capExtPositionB in
  let v0 := capBottomB [-] capBottomA in
  let v1 := capTopB [-] capBottomA in
  let v2 := capBottomB [-] capTopA in
  let v3 := capTopB [-] capTopA in
  let d0 := Dot v0 v0 in
  let d1 := Dot v1 v1 in
  let d2 := Dot v2 v2 in
  let d3 := Dot v3 v3 in
  let bestA :=
    if (d2 <? d0) || (d2 <? d1) || (d3 <? d0) || (d3 <? d1) then capTopA
    else capBottomA in
  let bestB := ClosestPointOnLineSegment capBottomB capTopB bestA in
  let bestA := ClosestPointOnLineSegment capBottomA capTopA bestB in
  let sphereA := SphereVolume_new (Capsule_GetRadius volumeA) in
  let sphereTransformA := SetPosition Transform_default bestA in
  let sphereTransformA :=
    SetScale sphereTransformA (mkV f1 f1 f1 [*] Capsule_GetRadius volumeA) in
  let sphereB := SphereVolume_new (Capsule_GetRadius volumeB) in
  let sphereTransformB := SetPosition Transform_default bestB in
  let sphereTransformB :=
    SetScale sphereTransformB (mkV f1 f1 f1 [*] Capsule_GetRadius volumeB) in
  let (collision, collisionInfo) :=
    SphereIntersection sphereA sphereTransformA sphereB sphereTransformB collisionInfo in
  let collisionInfo :=
    set_localA collisionInfo
      (localA (point collisionInfo)
       [+] (GetPosition sphereTransformA [-] GetPosition worldTransformA
            [+] Capsule_GetOffset volumeA)) in
  let collisionInfo :=
    set_localB collisionInfo
      (localB (point collisionInfo)
       [+] (GetPosition sphereTransformB [-] GetPosition worldTransformB
            [+] Capsule_GetOffset volumeB)) in
  (collision, collisionInfo).

(** [useBoxPoint] is declared with a default in the missing header: the
    sphere/OBB routine passes [true], the other callers pass nothing and get
    the body-origin anchor, so the default is [false]. *)
Definition AABBSphereIntersection (volumeA : AABBVolume) (worldTransformA : Transform)
  (volumeB : SphereVolume) (worldTransformB : Transform) (collisionInfo : CollisionInfo)
  (useBoxPoint : bool) : bool * CollisionInfo :=
  let boxSize := AABB_GetHalfDimensions volumeA in
  let delta := (GetPosition worldTransformB [+] Sphere_GetOffset volumeB)
               [-] (GetPosition worldTransformA [+] AABB_GetOffset volumeA) in
  let closestPointOnBox := ClampV delta ([-] boxSize) boxSize in
  let localPoint := delta [-] closestPointOnBox in
  let distance := Length localPoint in
  if distance <? Sphere_GetRadius volumeB then
    let collisionNormal := Normalised localPoint in
    let penetration := Sphere_GetRadius volumeB - distance in
    let localA := ([-] collisionNormal) [*] Sphere_GetRadius volumeB in
    let localB := if useBoxPoint then closestPointOnBox else Vzero in
    (true, AddContactPoint collisionInfo localA localB collisionNormal penetration)
  else (false, collisionInfo).

Definition SphereOBBIntersection (volumeA : SphereVolume) (worldTransformA : Transform)
  (volumeB : OBBVolume) (worldTransformB : Transform) (collisionInfo : CollisionInfo)
  : bool * CollisionInfo :=
  let orientation := GetOrientation worldTransformB in
  let transform := Matrix3_of_Quaternion orientation in
  let invTransform := Matrix3_of_Quaternion (Conjugate orientation) in
  let sphere := SphereVolume_new (Sphere_GetRadius volumeA) in
  let sphereTransform :=
    SetPosition Transform_default
      (M3mulV invTransform (GetPosition worldTransformA) [+] Sphere_GetOffset volumeA) in
  let sphereTransform :=
    SetScale sphereTransform (mkV f1 f1 f1 [*] Sphere_GetRadius volumeA) in
  let aabb := AABBVolume_new (OBB_GetHalfDimensions volumeB) in
  let aabbTransform :=
    SetPosition Transform_default
      (M3mulV invTransform (GetPosition worldTransformB) [+] OBB_GetOffset volumeB) in
  let aabbTransform := SetScale aabbTransform (OBB_GetHalfDimensions volumeB) in
  let (collided, collisionInfo) :=
    AABBSphereIntersection aabb aabbTransform sphere sphereTransform collisionInfo true in
  let collisionInfo :=
    set_localA collisionInfo (M3mulV transform (localA (point collisionInfo))) in
  let collisionInfo :=
    set_localB collisionInfo (M3mulV transform (localB (point collisionInfo))) in
  let collisionInfo :=
    set_normal collisionInfo (M3mulV transform ([-] normal (point collisionInfo))) in
  (collided, collisionInfo).

Definition CapsuleOBBIntersection (volumeA : CapsuleVolume) (worldTransformA : Transform)
  (volumeB : OBBVolume) (worldTransformB : Transform) (collisionInfo : CollisionInfo)
  : bool * CollisionInfo :=
  let invTransform := Matrix3_of_Quaternion (Conjugate (GetOrientation worldTransformB)) in
  let point' :=
    Qrot (GetOrientation worldTransformB)
      (ClampV
         (M3mulV invTransform (GetPosition worldTransformA) [+] Capsule_GetOffset volumeA)
         (GetPosition worldTransformB [+] OBB_GetOffset volumeB
          [-] OBB_GetHalfDimensions volumeB)
         (GetPosition worldTransformB [+] OBB_GetOffset volumeB
          [+] OBB_GetHalfDimensions volumeB)) in
  let sphere := SphereVolume_new (Capsule_GetRadius volumeA) in
  let sphereTransform :=
    SetPosition Transform_default (SpherePosFromCapsule volumeA worldTransformA point') in
  let sphereTransform :=
    SetScale sphereTransform (mkV f1 f1 f1 [*] Capsule_GetRadius volumeA) in
  let (collision, collisionInfo) :=
    SphereOBBIntersection sphere sphereTransform volumeB worldTransformB collisionInfo in
  let collisionInfo :=
    set_localA collisionInfo
      (localA (point collisionInfo)
       [+] (GetPosition sphereTransform [-] GetPosition worldTransformA
            [+] Capsule_GetOffset volumeA)) in
  (collision, collisionInfo).

(** The state of the separating-axis loop of [OBBIntersection]. *)
Record OBBLoop : Type := mkOBBLoop {
  leastPenetration : float;
  penIndex : Z;
  info : CollisionInfo
}.

(** One round of the loop, for [directions[i]].  The boolean is [true] when
    the round ends in [continue] (or at the end of the body) and [false]
    when it ends in [return false]. *)
Definition OBB_axis (worldTransformA worldTransformB : Transform)
  (i : Z) (direction : Vector3) (st : OBBLoop) : bool * OBBLoop :=
  if Dot direction direction <? lit 99 100 then (true, st)
  else
    let maxA := OBBSupport worldTransformA direction in
    let minA := OBBSupport worldTransformA ([-] direction) in
    let maxB := OBBSupport worldTransformB direction in
    let minB := OBBSupport worldTransformB ([-] direction) in
    let denom := Dot direction direction in
    let minExtentA := direction [*] (Dot minA direction / denom) in
    let maxExtentA := direction [*] (Dot maxA direction / denom) in
    let minExtentB := direction [*] (Dot minB direction / denom) in
    let maxExtentB := direction [*] (Dot maxB direction / denom) in
    let left := Dot (maxExtentA [-] minExtentA) (minExtentB [-] minExtentA) in
    let right := Dot (minExtentA [-] maxExtentA) (maxExtentB [-] maxExtentA) in
    let rest (_ : unit) :=
      let rest (_ : unit) :=
        if (left <? f0) && (right <? f0) then
          (true, mkOBBLoop (leastPenetration st) i (info st))
        else (false, st) in
      if left >? f0 then
        let distance := Length (minExtentB [-] minExtentA) in
        let length := Length (maxExtentA [-] minExtentA) in
        if distance <=? length then
          let penDist := length - distance in
          if penDist <? leastPenetration st then
            (true, mkOBBLoop penDist i
                     (set_normal (set_localB (set_localA (info st) maxA) minB) direction))
          else (true, st)
        else rest tt
      else rest tt in
    if right >? f0 then
      let distance := Length (maxExtentB [-] maxExtentA) in
      let length := Length (maxExtentA [-] minExtentA) in
      if distance <=? length then
        let penDist := length - distance in
        if penDist <? leastPenetration st then
          (true, mkOBBLoop penDist i
                   (set_normal (set_localB (set_localA (info st) minA) maxB)
                               ([-] direction)))
        else (true, st)
      else rest tt
    else rest tt.

Fixpoint OBB_loop (worldTransformA worldTransformB : Transform)
  (directions : list Vector3) (i : Z) (st : OBBLoop) : bool * OBBLoop :=
  match directions with
  | [] => (true, st)
  | direction :: rest =>
      let (continue, st) := OBB_axis worldTransformA worldTransformB i direction st in
      if continue then OBB_loop worldTransformA worldTransformB rest (i + 1) st
      else (false, st)
  end.

Definition OBB_directions (worldTransformA worldTransformB : Transform) : list Vector3 :=
  let qA := GetOrientation worldTransformA in
  let qB := GetOrientation worldTransformB in
  let X := mkV f1 f0 f0 in
  let Y := mkV f0 f1 f0 in
  let Z := mkV f0 f0 f1 in
  [ Qrot qA X; Qrot qA Y; Qrot qA Z;
    Qrot qB X; Qrot qB Y; Qrot qB Z;
    Cross (Qrot qA X) (Qrot qB X); Cross (Qrot qA X) (Qrot qB Y);
    Cross (Qrot qA X) (Qrot qB Z);
    Cross (Qrot qA Y) (Qrot qB X); Cross (Qrot qA Y) (Qrot qB Y);
    Cross (Qrot qA Y) (Qrot qB Z);
    Cross (Qrot qA Z) (Qrot qB X); Cross (Qrot qA Z) (Qrot qB Y);
    Cross (Qrot qA Z) (Qrot qB Z) ].

Definition OBBIntersection (volumeA : OBBVolume) (worldTransformA : Transform)
  (volumeB : OBBVolume) (worldTransformB : Transform) (collisionInfo : CollisionInfo)
  : bool * CollisionInfo :=
  let directions := OBB_directions worldTransformA worldTransformB in
  let (completed, st) :=
    OBB_loop worldTransformA worldTransformB directions 0
      (mkOBBLoop FLT_MAX (-1) collisionInfo) in
  if completed then
    let collisionInfo := set_penetration (info st) (leastPenetration st) in
    let collisionInfo :=
      set_localA collisionInfo
        (localA (point collisionInfo)
         [-] (GetPosition worldTransformA [+] OBB_GetOffset volumeA)) in
    let collisionInfo :=
      set_localB collisionInfo
        (localB (point collisionInfo)
         [-] (GetPosition worldTransformB [+] OBB_GetOffset volumeB)) in
    (true, collisionInfo)
  else (false, info st).

Definition SphereCapsuleIntersection (volumeA : CapsuleVolume) (worldTransformA : Transform)
  (volumeB : SphereVolume) (worldTransformB : Transform) (collisionInfo : CollisionInfo)
  : bool * CollisionInfo :=
  let sphere := SphereVolume_new (Capsule_GetRadius volumeA) in
  let sphereTransform :=
    SetPosition Transform_default
      (SpherePosFromCapsule volumeA worldTransformA
         (GetPosition worldTransformB [+] Sphere_GetOffset volumeB)) in
  let sphereTransform :=
    SetScale sphereTransform (mkV f1 f1 f1 [*] Capsule_GetRadius volumeA) in
  let (collision, collisionInfo) :=
    SphereIntersection sphere sphereTransform volumeB worldTransformB collisionInfo in
  let collisionInfo :=
    set_localA collisionInfo
      (localA (point collisionInfo)
       [+] (GetPosition sphereTransform [-] GetPosition worldTransformA
            [+] Capsule_GetOffset volumeA)) in
  (collision, collisionInfo).

Definition AABBCapsuleIntersection (volumeA : CapsuleVolume) (worldTransformA : Transform)
  (volumeB : AABBVolume) (worldTransformB : Transform) (collisionInfo : CollisionInfo)
  : bool * CollisionInfo :=
  let point' :=
    ClampV (GetPosition worldTransformA [+] Capsule_GetOffset volumeA)
      (GetPosition worldTransformB [+] AABB_GetOffset volumeB
       [-] AABB_GetHalfDimensions volumeB)
      (GetPosition worldTransformB [+] AABB_GetOffset volumeB
       [+] AABB_GetHalfDimensions volumeB) in
  let sphere := SphereVolume_new (Capsule_GetRadius volumeA) in
  let sphereTransform :=
    SetPosition Transform_default (SpherePosFromCapsule volumeA worldTransformA point') in
  let sphereTransform :=
    SetScale sphereTransform (mkV f1 f1 f1 [*] Capsule_GetRadius volumeA) in
  let (collision, collisionInfo) :=
    AABBSphereIntersection volumeB worldTransformB sphere sphereTransform collisionInfo false in
  let collisionInfo := set_normal collisionInfo ([-] normal (point collisionInfo)) in
  let collisionInfo :=
    set_localA collisionInfo
      (localA (point collisionInfo)
       [+] (GetPosition sphereTransform [-] GetPosition worldTransformA
            [+] Capsule_GetOffset volumeA)) in
  (collision, collisionInfo).

(** ** The dispatcher *)

Definition VolumeType_eqb (s t : VolumeType) : bool :=
  Z.eqb (VolumeType_to_int s) (VolumeType_to_int t).

Definition ObjectIntersection (a b : GameObject) (collisionInfo : CollisionInfo)
  : bool * CollisionInfo :=
  match GetBoundingVolume a, GetBoundingVolume b with
  | Some volA, Some volB =>
      let collisionInfo := set_a collisionInfo a in
      let collisionInfo := set_b collisionInfo b in
      let transformA := GetTransform a in
      let transformB := GetTransform b in
      let pairType :=
        Z.lor (VolumeType_to_int (type volA)) (VolumeType_to_int (type volB)) in
      if Z.eqb pairType (VolumeType_to_int AABB) then
        AABBIntersection (as_AABB volA) transformA (as_AABB volB) transformB collisionInfo
      else if Z.eqb pairType (VolumeType_to_int Sphere) then
        SphereIntersection (as_Sphere volA) transformA (as_Sphere volB) transformB
          collisionInfo
      else if Z.eqb pairType (VolumeType_to_int OBB) then
        OBBIntersection (as_OBB volA) transformA (as_OBB volB) transformB collisionInfo
      else if Z.eqb pairType (VolumeType_to_int Capsule) then
        CapsuleIntersection (as_Capsule volA) transformA (as_Capsule volB) transformB
          collisionInfo
      else if VolumeType_eqb (type volA) AABB && VolumeType_eqb (type volB) Sphere then
        AABBSphereIntersection (as_AABB volA) transformA (as_Sphere volB) transformB
          collisionInfo false
      else if VolumeType_eqb (type volA) Sphere && VolumeType_eqb (type volB) AABB then
        let collisionInfo := set_a collisionInfo b in
        let collisionInfo := set_b collisionInfo a in
        AABBSphereIntersection (as_AABB volB) transformB (as_Sphere volA) transformA
          collisionInfo false
      else if VolumeType_eqb (type volA) Capsule && VolumeType_eqb (type volB) Sphere then
        SphereCapsuleIntersection (as_Capsule volA) transformA (as_Sphere volB) transformB
          collisionInfo
      else if VolumeType_eqb (type volA) Sphere && VolumeType_eqb (type volB) Capsule then
        let collisionInfo := set_a collisionInfo b in
        let collisionInfo := set_b collisionInfo a in
        SphereCapsuleIntersection (as_Capsule volB) transformB (as_Sphere volA) transformA
          collisionInfo
      else if VolumeType_eqb (type volA) Capsule && VolumeType_eqb (type volB) AABB then
        AABBCapsuleIntersection (as_Capsule volA) transformA (as_AABB volB) transformB
          collisionInfo
      else if VolumeType_eqb (type volA) AABB && VolumeType_eqb (type volB) Capsule then
        let collisionInfo := set_a collisionInfo b in
        let collisionInfo := set_b collisionInfo a in
        AABBCapsuleIntersection (as_Capsule volB) transformB (as_AABB volA) transformA
          collisionInfo
      else if VolumeType_eqb (type volA) Sphere && VolumeType_eqb (type volB) OBB then
        SphereOBBIntersection (as_Sphere volA) transformA (as_OBB volB) transformB
          collisionInfo
      else if VolumeType_eqb (type volA) OBB && VolumeType_eqb (type volB) Sphere then
        let collisionInfo := set_a collisionInfo b in
        let collisionInfo := set_b collisionInfo a in
        SphereOBBIntersection (as_Sphere volB) transformB (as_OBB volA) transformA
          collisionInfo
      else if VolumeType_eqb (type volA) Capsule && VolumeType_eqb (type volB) OBB then
        CapsuleOBBIntersection (as_Capsule volA) transformA (as_OBB volB) transformB
          collisionInfo
      else if VolumeType_eqb (type volA) OBB && VolumeType_eqb (type volB) Capsule then
        let collisionInfo := set_a collisionInfo b in
        let collisionInfo := set_b collisionInfo a in
        CapsuleOBBIntersection (as_Capsule volB) transformB (as_OBB volA) transformA
          collisionInfo
      else if (VolumeType_eqb (type volA) AABB && VolumeType_eqb (type volB) OBB)
              || (VolumeType_eqb (type volA) OBB && VolumeType_eqb (type volB) AABB) then
        OBBIntersection (as_OBB volA) transformA (as_OBB volB) transformB collisionInfo
      else (false, collisionInfo)
  | _, _ => (false, collisionInfo)
  end.

(** ** The ordering of manifolds *)

(** [size_t] is taken to be 64 bits wide, as the shift by 32 needs; an
    [int] converted to it is reduced modulo 2^64, and sums and shifts wrap. *)
Definition size_t_of_int (n : Z) : Z := Z.modulo n (2 ^ 64).
Definition size_t_add (x y : Z) : Z := Z.modulo (x + y) (2 ^ 64).
Definition size_t_shl (x n : Z) : Z := Z.modulo (Z.shiftl x n) (2 ^ 64).

Definition hash (a b : GameObject) : Z :=
  size_t_add (size_t_of_int (GetWorldID a))
             (size_t_shl (size_t_of_int (GetWorldID b)) 32).

(** [CollisionInfo::operator<]; the result is [None] where the code
    dereferences a null body pointer. *)
Definition CollisionInfo_lt (this other : CollisionInfo) : option bool :=
  match a other, b other, a this, b this with
  | Some oa, Some ob, Some ta, Some tb =>
      let otherHash := hash oa ob in
      let thisHash := hash ta tb in
      if Z.ltb thisHash otherHash then Some true else Some false
  | _, _, _, _ => None
  end.

End NarrowPhase.


(** ** Definitions used to state the properties *)

Section Statements.
Context {F : Float}.

(** The least of a list of reals that has a first element. *)
Definition least (d0 : R) (ds : list R) : R := fold_right Rmin d0 ds.

(** The minimum of a list of reals (0 for the empty list). *)
Definition minimum (l : list R) : R :=
  match l with
  | [] => 0%R
  | d :: ds => least d ds
  end.

(** The routine and the argument order [ObjectIntersection] selects for
    each of the sixteen ordered pairs of kinds.  Every cast meets a volume
    of the kind it names, except for the two mixed box pairs. *)
Definition ObjectIntersection_table (a b : GameObject) (volA volB : CollisionVolume)
  (collisionInfo : CollisionInfo) : bool * CollisionInfo :=
  let tA := GetTransform a in
  let tB := GetTransform b in
  let ab := set_b (set_a collisionInfo a) b in
  let ba := set_b (set_a ab b) a in
  match volA, volB with
  | VolAABB va, VolAABB vb => AABBIntersection va tA vb tB ab
  | VolSphere va, VolSphere vb => SphereIntersection va tA vb tB ab
  | VolOBB va, VolOBB vb => OBBIntersection va tA vb tB ab
  | VolCapsule va, VolCapsule vb => CapsuleIntersection va tA vb tB ab
  | VolAABB va, VolSphere vb => AABBSphereIntersection va tA vb tB ab false
  | VolSphere va, VolAABB vb => AABBSphereIntersection vb tB va tA ba false
  | VolCapsule va, VolSphere vb => SphereCapsuleIntersection va tA vb tB ab
  | VolSphere va, VolCapsule vb => SphereCapsuleIntersection vb tB va tA ba
  | VolCapsule va, VolAABB vb => AABBCapsuleIntersection va tA vb tB ab
  | VolAABB va, VolCapsule vb => AABBCapsuleIntersection vb tB va tA ba
  | VolSphere va, VolOBB vb => SphereOBBIntersection va tA vb tB ab
  | VolOBB va, VolSphere vb => SphereOBBIntersection vb tB va tA ba
  | VolCapsule va, VolOBB vb => CapsuleOBBIntersection va tA vb tB ab
  | VolOBB va, VolCapsule vb => CapsuleOBBIntersection vb tB va tA ba
  | VolAABB va, VolOBB vb =>
      OBBIntersection (mkOBB (AABB_GetHalfDimensions va) (AABB_GetOffset va)) tA vb tB ab
  | VolOBB va, VolAABB vb =>
      OBBIntersection va tA (mkOBB (AABB_GetHalfDimensions vb) (AABB_GetOffset vb)) tB ab
  end.

(** The ordered kind pairs for which the dispatcher exchanges the two
    bodies before it calls the pair routine. *)
Definition swaps (kindA kindB : VolumeType) : bool :=
  match kindA, kindB with
  | Sphere, AABB | Sphere, Capsule | AABB, Capsule | OBB, Sphere | OBB, Capsule => true
  | _, _ => false
  end.

(** A manifold with its body references replaced. *)
Definition with_bodies (x y : option GameObject) (ci : CollisionInfo) : CollisionInfo :=
  mkCollisionInfo x y (point ci).

(** The same on the state of the separating-axis loop. *)
Definition loop_with_bodies (x y : option GameObject) (st : OBBLoop) : OBBLoop :=
  mkOBBLoop (leastPenetration st) (penIndex st) (with_bodies x y (info st)).

(** A coordinate of a corner of the box of half size 0.5. *)
Definition half_unit (s : float) : Prop := s = lit 1 2 \/ s = fneg (lit 1 2).

(** An object that has a bounding volume. *)
Definition object (v : CollisionVolume) (t : Transform) (id : Z) : GameObject :=
  mkGameObject (Some v) t id.

(** An object without one, as the constructor leaves it. *)
Definition bare_object (t : Transform) (id : Z) : GameObject :=
  mkGameObject None t id.

(** A manifold between two bodies that are set. *)
Definition manifold (x y : GameObject) (p : ContactPoint) : CollisionInfo :=
  mkCollisionInfo (Some x) (Some y) p.

(** Following the spec's words for the ordering key, "lower identifier
    first": the smaller identifier in the low half, the larger one shifted
    left by 32 bits. *)
Definition spec_pair_key (x y : GameObject) : Z :=
  Z.min (GetWorldID x) (GetWorldID y)
  + Z.shiftl (Z.max (GetWorldID x) (GetWorldID y)) 32.

Definition spec_lt (this other : CollisionInfo) : option bool :=
  match a this, b this, a other, b other with
  | Some ta, Some tb, Some oa, Some ob =>
      Some (Z.ltb (spec_pair_key ta tb) (spec_pair_key oa ob))
  | _, _, _, _ => None
  end.

(** The six face-separation distances of two boxes, in the order of
    [faces]: B's maximum minus A's minimum, then A's maximum minus B's
    minimum, on x, y and z. *)
Definition face_distances (volumeA : AABBVolume) (worldTransformA : Transform)
  (volumeB : AABBVolume) (worldTransformB : Transform) : list float :=
  let boxAPos := GetPosition worldTransformA [+] AABB_GetOffset volumeA in
  let boxBPos := GetPosition worldTransformB [+] AABB_GetOffset volumeB in
  let maxA := boxAPos [+] AABB_GetHalfDimensions volumeA in
  let minA := boxAPos [-] AABB_GetHalfDimensions volumeA in
  let maxB := boxBPos [+] AABB_GetHalfDimensions volumeB in
  let minB := boxBPos [-] AABB_GetHalfDimensions volumeB in
  [ fsub (vx maxB) (vx minA); fsub (vx maxA) (vx minB);
    fsub (vy maxB) (vy minA); fsub (vy maxA) (vy minB);
    fsub (vz maxB) (vz minA); fsub (vz maxA) (vz minB) ].

(** What [OBBIntersection] returns when it reports a collision and no round
    of its loop has written the contact: the caller's manifold with the
    penetration set to FLT_MAX and the two anchors shifted by the centres. *)
Definition stale_manifold (volumeA : OBBVolume) (worldTransformA : Transform)
  (volumeB : OBBVolume) (worldTransformB : Transform) (ci : CollisionInfo)
  : CollisionInfo :=
  mkCollisionInfo (a ci) (b ci)
    (mkContactPoint
       (localA (point ci) [-] (GetPosition worldTransformA [+] OBB_GetOffset volumeA))
       (localB (point ci) [-] (GetPosition worldTransformB [+] OBB_GetOffset volumeB))
       (normal (point ci))
       FLT_MAX).

(** A round of the loop that writes nothing to the contact: the axis is
    skipped, or only [penIndex] is set. *)
Definition round_writes_nothing (worldTransformA worldTransformB : Transform)
  (i : Z) (direction : Vector3) : Prop :=
  forall st : OBBLoop,
    OBB_axis worldTransformA worldTransformB i direction st = (true, st)
    \/ OBB_axis worldTransformA worldTransformB i direction st
       = (true, mkOBBLoop (leastPenetration st) i (info st)).

(** The outcome of two calls agrees, and on collision the penetrations
    agree and the second normal is the first one negated. *)
Definition mirrored (r1 r2 : bool * CollisionInfo) : Prop :=
  fst r1 = fst r2
  /\ (fst r1 = true ->
      penetration (point (snd r1)) = penetration (point (snd r2))
      /\ normal (point (snd r2)) = [-] normal (point (snd r1))).

(** The range of [int]. *)
Definition is_int (n : Z) : Prop := (- 2 ^ 31 <= n < 2 ^ 31)%Z.

(** A pose at a position, and a pose at a position with a scale; the
    orientation is the identity. *)
Definition pose_at (p : Vector3) : Transform := SetPosition Transform_default p.
Definition pose_scaled (p s : Vector3) : Transform := SetScale (pose_at p) s.

(** Vectors with integer and with half-integer components. *)
Definition vec (x y z : Z) : Vector3 := mkV (of_Z x) (of_Z y) (of_Z z).
Definition vec_halves (x y z : Z) : Vector3 := mkV (lit x 2) (lit y 2) (lit z 2).
Definition vec_quarters (x y z : Z) : Vector3 := mkV (lit x 4) (lit y 4) (lit z 4).

(** The coordinate of a vector on axis 0 (x), 1 (y) or 2 (z). *)
Definition coordinate (k : nat) (v : Vector3) : float :=
  match k with
  | 0%nat => vx v
  | 1%nat => vy v
  | _ => vz v
  end.

(** The squared norm of a quaternion; 1 for an orientation. *)
Definition Qnorm2 (q : Quaternion) : float :=
  fadd (fadd (fadd (fmul (qx q) (qx q)) (fmul (qy q) (qy q))) (fmul (qz q) (qz q)))
       (fmul (qw q) (qw q)).

(** The projection of a support point [p] on the axis [d], as the loop
    computes it: a point of the axis. *)
Definition OBB_extent (d p : Vector3) : Vector3 := d [*] (fdiv (Dot p d) (Dot d d)).

(** What a round of the separating-axis loop writes for the axis [d] when
    it records a contact: the axis has passed the 0.99 test, the two
    anchors are support points of the two boxes in opposite directions
    along [d], the normal is [d] or its opposite, and the penetration is
    the width of A along the axis minus the distance between two projected
    support points. *)
Definition OBB_contact (worldTransformA worldTransformB : Transform)
  (d la lb n : Vector3) (pen : float) : Prop :=
  let maxA := OBBSupport worldTransformA d in
  let minA := OBBSupport worldTransformA ([-] d) in
  let maxB := OBBSupport worldTransformB d in
  let minB := OBBSupport worldTransformB ([-] d) in
  let width := Length (OBB_extent d maxA [-] OBB_extent d minA) in
  flt (Dot d d) (lit 99 100) = false
  /\ ((la = minA /\ lb = maxB /\ n = [-] d
       /\ pen = fsub width (Length (OBB_extent d maxB [-] OBB_extent d maxA)))
      \/ (la = maxA /\ lb = minB /\ n = d
          /\ pen = fsub width (Length (OBB_extent d minB [-] OBB_extent d minA)))).

(** The state of the separating-axis loop: either no round has written
    the contact yet, or the contact and the least penetration are the ones
    a round wrote for one of the axes. *)
Definition OBB_anchored (worldTransformA worldTransformB : Transform)
  (directions : list Vector3) (ci : CollisionInfo) (st : OBBLoop) : Prop :=
  (info st = ci /\ leastPenetration st = FLT_MAX)
  \/ exists d : Vector3,
      In d directions
      /\ OBB_contact worldTransformA worldTransformB d
           (localA (point (info st))) (localB (point (info st)))
           (normal (point (info st))) (leastPenetration st).

End Statements.

(** ** The separating-axis loop over the reals *)

Section RealStatements.
Local Existing Instance RealFloat.

(** A round of the loop has written the contact: the penetration is
    non-negative and below the initial FLT_MAX, and the normal is a valid
    candidate axis or its opposite. *)
Definition OBB_written (directions : list Vector3) (st : OBBLoop) : Prop :=
  (0 <= leastPenetration st < RF.max_float)%R
  /\ exists d : Vector3,
      In d directions /\ (99 / 100 <= Dot d d)%R
      /\ (normal (point (info st)) = d \/ normal (point (info st)) = [-] d).

Definition OBB_invariant (directions : list Vector3) (st : OBBLoop) : Prop :=
  leastPenetration st = RF.max_float \/ OBB_written directions st.

End RealStatements.

(** ** Concrete inputs *)

Module Example.
Section Inputs.
Context {F : Float}.

(** Two upright capsules of half height 2 and radius 1, ten units apart. *)
Definition capsule : CollisionVolume := VolCapsule (mkCapsule (of_Z 2) f1 Vzero).

(** Two manifolds over the same two bodies, taken in the two orders. *)
Definition body_1 : GameObject := bare_object Transform_default 1.
Definition body_2 : GameObject := bare_object Transform_default 2.
Definition manifold_21 : CollisionInfo := manifold body_2 body_1 (point CollisionInfo_new).
Definition manifold_12 : CollisionInfo := manifold body_1 body_2 (point CollisionInfo_new).

(** The unit sphere and the box of half extent 1, without offset. *)
Definition unit_sphere : SphereVolume := mkSphere f1 Vzero.
Definition unit_box : AABBVolume := mkAABB (vec 1 1 1) Vzero.

(** The ray from (-5, 0, 0) along +x. *)
Definition ray_along_x : Ray := mkRay (vec (-5) 0 0) (vec 1 0 0).

(** The unit box at the origin and the unit sphere 1.5 to its right, as
    objects; a unit sphere at the centre of the box. *)
Definition box_object : GameObject := object (VolAABB unit_box) (pose_at Vzero) 1.
Definition sphere_object : GameObject :=
  object (VolSphere unit_sphere) (pose_at (vec_halves 3 0 0)) 2.
Definition sphere_inside : GameObject :=
  object (VolSphere unit_sphere) (pose_at Vzero) 3.

(** A cube of side 1 inside a cube of side 4, both at the origin and
    axis-aligned; the box extents come from the scale of the pose. *)
Definition cube : OBBVolume := mkOBB (vec 1 1 1) Vzero.
Definition small_pose : Transform := pose_at Vzero.
Definition big_pose : Transform := pose_scaled Vzero (vec 4 4 4).

(** Boxes given as objects: the two cubes above, a unit cube at
    (0.75, 0.25, 0.25), one at (1.5, 0.25, 0.25) and one at (10, 5, 0); a
    second box of half extent 1 at the origin. *)
Definition small_cube : GameObject := object (VolOBB cube) small_pose 1.
Definition big_cube : GameObject := object (VolOBB cube) big_pose 2.
Definition cube_near : GameObject := object (VolOBB cube) (pose_at (vec_quarters 3 1 1)) 2.
Definition cube_apart : GameObject := object (VolOBB cube) (pose_at (vec_quarters 6 1 1)) 2.
Definition box_twin : GameObject := object (VolAABB unit_box) (pose_at Vzero) 2.
Definition big_box : GameObject := object (VolAABB unit_box) big_pose 2.

(** A second unit sphere at the origin. *)
Definition sphere_twin : GameObject := object (VolSphere unit_sphere) (pose_at Vzero) 4.

(** A unit cube centred at (1, 0.5, 0) and turned by the unit quaternion
    (2, 2, 5, 4) / 7. *)
Definition tilted_pose : Transform :=
  mkTransform (vec_halves 2 1 0) (mkQ (lit 2 7) (lit 2 7) (lit 5 7) (lit 4 7)) (vec 1 1 1).
Definition cube_tilted : GameObject := object (VolOBB cube) tilted_pose 2.

(** A unit cube centred at (0.5, 0, 0) and turned by the unit quaternion
    (2, 1, 0, 2) / 3. *)
Definition askew_pose : Transform :=
  mkTransform (vec_halves 1 0 0) (mkQ (lit 2 3) (lit 1 3) f0 (lit 2 3)) (vec 1 1 1).
Definition cube_askew : GameObject := object (VolOBB cube) askew_pose 2.

(** Two capsules of half height 4 and radius 1: one upright at the origin,
    one centred at (1.5, 2.5, 3) and turned about the x axis by the unit
    quaternion (4, 0, 0, 3) / 5. *)
Definition tall_capsule : CollisionVolume := VolCapsule (mkCapsule (of_Z 4) f1 Vzero).
Definition leaning_pose : Transform :=
  mkTransform (mkV (lit 3 2) (lit 5 2) (of_Z 3)) (mkQ (lit 4 5) f0 f0 (lit 3 5)) (vec 1 1 1).
Definition capsule_upright : GameObject := object tall_capsule (pose_at Vzero) 1.
Definition capsule_leaning : GameObject := object tall_capsule leaning_pose 2.

(** A box of half extents (1, 2, 3) turned by the unit quaternion
    (0, 0, 3, 4) / 5, a rotation about the z axis. *)
Definition slab : CollisionVolume := VolOBB (mkOBB (vec 1 2 3) Vzero).
Definition turned_pose : Transform :=
  mkTransform Vzero (mkQ f0 f0 (lit 3 5) (lit 4 5)) (vec 1 1 1).

End Inputs.
End Example.

(** ** GameObject: the broad-phase box *)

Section Broadphase.
Context {F : Float}.

(** Modelled from the spec: [Common/Matrix3.h] is not part of the sources;
    [Absolute] is the matrix of the absolute values of the entries. *)
Definition M3Absolute (m : Matrix3) : Matrix3 :=
  mkM3 (fabs (m0 m)) (fabs (m1 m)) (fabs (m2 m))
       (fabs (m3 m)) (fabs (m4 m)) (fabs (m5 m))
       (fabs (m6 m)) (fabs (m7 m)) (fabs (m8 m)).

(** [GameObject.cpp]: the methods read and write the member
    [broadphaseAABB], which is passed in and handed back explicitly.
    [GetBroadphaseAABB] returns its result and [outSize] as it leaves it. *)
Definition GetBroadphaseAABB (object : GameObject) (broadphaseAABB outSize : Vector3)
  : bool * Vector3 :=
  match GetBoundingVolume object with
  | None => (false, outSize)
  | Some _ => (true, broadphaseAABB)
  end.

Definition UpdateBroadphaseAABB (object : GameObject) (broadphaseAABB : Vector3)
  : Vector3 :=
  match GetBoundingVolume object with
  | None => broadphaseAABB
  | Some boundingVolume =>
      if VolumeType_eqb (type boundingVolume) AABB then
        AABB_GetHalfDimensions (as_AABB boundingVolume)
      else if VolumeType_eqb (type boundingVolume) Sphere then
        let r := Sphere_GetRadius (as_Sphere boundingVolume) in
        mkV r r r
      else if VolumeType_eqb (type boundingVolume) Capsule then
        let mat := Matrix3_of_Quaternion (GetOrientation (GetTransform object)) in
        let mat := M3Absolute mat in
        let r := Capsule_GetRadius (as_Capsule boundingVolume) in
        let halfHeight := Capsule_GetHalfHeight (as_Capsule boundingVolume) in
        M3mulV mat (mkV r halfHeight r)
      else if VolumeType_eqb (type boundingVolume) OBB then
        let mat := Matrix3_of_Quaternion (GetOrientation (GetTransform object)) in
        let mat := M3Absolute mat in
        let halfSizes := OBB_GetHalfDimensions (as_OBB boundingVolume) in
        M3mulV mat halfSizes
      else broadphaseAABB
  end.

(** The contact fields a failing call may have touched: everything of the
    manifold but the penetration. *)
Definition same_penetration (ci ci' : CollisionInfo) : Prop :=
  penetration (point ci') = penetration (point ci).

(** The box a volume fits in, in the volume's own frame: the half sizes of
    a box, the radius on every axis for a sphere, and radius, half height,
    radius for a capsule. *)
Definition local_extent (v : CollisionVolume) : Vector3 :=
  match v with
  | VolAABB b => AABB_GetHalfDimensions b
  | VolOBB o => OBB_GetHalfDimensions o
  | VolSphere s => mkV (Sphere_GetRadius s) (Sphere_GetRadius s) (Sphere_GetRadius s)
  | VolCapsule c => mkV (Capsule_GetRadius c) (Capsule_GetHalfHeight c) (Capsule_GetRadius c)
  end.

(** Where a point of the volume's own frame lies relative to the volume's
    centre in the world: rotated by the orientation for the two kinds that
    turn with the body. *)
Definition world_offset (v : CollisionVolume) (t : Transform) (p : Vector3) : Vector3 :=
  match v with
  | VolAABB _ | VolSphere _ => p
  | VolOBB _ | VolCapsule _ => M3mulV (Matrix3_of_Quaternion (GetOrientation t)) p
  end.

End Broadphase.

(** ** Single precision: values that carry no position *)

Section Binary32Statements.
Local Existing Instance Binary32.

(** A float that is a zero of either sign or a NaN: what the difference
    [x - x] can be. *)
Definition zero_or_nan (x : spec_float) : bool :=
  match x with
  | S754_zero _ | S754_nan => true
  | _ => false
  end.

(** The vector whose three coordinates are NaN. *)
Definition Vnan : Vector3 := mkV S754_nan S754_nan S754_nan.

End Binary32Statements.

(** * Properties that hold for any float arithmetic *)

Section AnyArithmetic.
Context {F : Float}.

(** The kinds are told apart by their flags. *)
Lemma VolumeType_eqb_eq (s t : VolumeType) : VolumeType_eqb s t = true <-> s = t.
Proof.
  destruct s, t; unfold VolumeType_eqb; cbn; split; intro H;
    solve [reflexivity | discriminate H].
Qed.

Lemma ObjectIntersection_dispatch (volA volB : CollisionVolume) tA tB idA idB
  (collisionInfo : CollisionInfo) :
  ObjectIntersection (object volA tA idA) (object volB tB idB) collisionInfo
  = ObjectIntersection_table (object volA tA idA) (object volB tB idB) volA volB
      collisionInfo.
Proof. destruct volA, volB; reflexivity. Qed.

(** ** The pair routines only write the contact point

    Each routine commutes with a change of the body references of the
    manifold it is given. *)

Lemma with_bodies_id ci : with_bodies (a ci) (b ci) ci = ci.
Proof. destruct ci; reflexivity. Qed.

Ltac split_ifs :=
  repeat match goal with
         | |- context [if ?c then _ else _] => destruct c
         end.

Lemma AABBIntersection_bodies va tA vb tB x y ci :
  AABBIntersection va tA vb tB (with_bodies x y ci)
  = let r := AABBIntersection va tA vb tB ci in (fst r, with_bodies x y (snd r)).
Proof.
  unfold AABBIntersection.
  destruct (AABBTest _ _ _ _); [|reflexivity].
  destruct (bestFace _ _); reflexivity.
Qed.

Lemma SphereIntersection_bodies va tA vb tB x y ci :
  SphereIntersection va tA vb tB (with_bodies x y ci)
  = let r := SphereIntersection va tA vb tB ci in (fst r, with_bodies x y (snd r)).
Proof. unfold SphereIntersection. split_ifs; reflexivity. Qed.

Lemma AABBSphereIntersection_bodies va tA vb tB x y ci useBoxPoint :
  AABBSphereIntersection va tA vb tB (with_bodies x y ci) useBoxPoint
  = let r := AABBSphereIntersection va tA vb tB ci useBoxPoint in
    (fst r, with_bodies x y (snd r)).
Proof. unfold AABBSphereIntersection. split_ifs; reflexivity. Qed.

Lemma CapsuleIntersection_bodies va tA vb tB x y ci :
  CapsuleIntersection va tA vb tB (with_bodies x y ci)
  = let r := CapsuleIntersection va tA vb tB ci in (fst r, with_bodies x y (snd r)).
Proof.
  unfold CapsuleIntersection. rewrite SphereIntersection_bodies.
  cbv zeta. destruct (SphereIntersection _ _ _ _ ci). reflexivity.
Qed.

Lemma SphereCapsuleIntersection_bodies va tA vb tB x y ci :
  SphereCapsuleIntersection va tA vb tB (with_bodies x y ci)
  = let r := SphereCapsuleIntersection va tA vb tB ci in (fst r, with_bodies x y (snd r)).
Proof.
  unfold SphereCapsuleIntersection. rewrite SphereIntersection_bodies.
  cbv zeta. destruct (SphereIntersection _ _ _ _ ci). reflexivity.
Qed.

Lemma AABBCapsuleIntersection_bodies va tA vb tB x y ci :
  AABBCapsuleIntersection va tA vb tB (with_bodies x y ci)
  = let r := AABBCapsuleIntersection va tA vb tB ci in (fst r, with_bodies x y (snd r)).
Proof.
  unfold AABBCapsuleIntersection. rewrite AABBSphereIntersection_bodies.
  cbv zeta. destruct (AABBSphereIntersection _ _ _ _ ci false). reflexivity.
Qed.

Lemma SphereOBBIntersection_bodies va tA vb tB x y ci :
  SphereOBBIntersection va tA vb tB (with_bodies x y ci)
  = let r := SphereOBBIntersection va tA vb tB ci in (fst r, with_bodies x y (snd r)).
Proof.
  unfold SphereOBBIntersection. rewrite AABBSphereIntersection_bodies.
  cbv zeta. destruct (AABBSphereIntersection _ _ _ _ ci true). reflexivity.
Qed.

Lemma CapsuleOBBIntersection_bodies va tA vb tB x y ci :
  CapsuleOBBIntersection va tA vb tB (with_bodies x y ci)
  = let r := CapsuleOBBIntersection va tA vb tB ci in (fst r, with_bodies x y (snd r)).
Proof.
  unfold CapsuleOBBIntersection. rewrite SphereOBBIntersection_bodies.
  cbv zeta. destruct (SphereOBBIntersection _ _ _ _ ci). reflexivity.
Qed.

(** The same for the separating-axis loop, on its state. *)

Lemma OBB_axis_bodies tA tB i d x y st :
  OBB_axis tA tB i d (loop_with_bodies x y st)
  = let r := OBB_axis tA tB i d st in (fst r, loop_with_bodies x y (snd r)).
Proof.
  destruct st as [lp pi ci]. unfold OBB_axis, loop_with_bodies.
  cbn [leastPenetration penIndex info]. cbv zeta. split_ifs; reflexivity.
Qed.

Lemma OBB_loop_bodies tA tB dirs : forall i x y st,
  OBB_loop tA tB dirs i (loop_with_bodies x y st)
  = let r := OBB_loop tA tB dirs i st in (fst r, loop_with_bodies x y (snd r)).
Proof.
  induction dirs as [|d dirs IH]; intros i x y st; [reflexivity|].
  cbn [OBB_loop]. rewrite OBB_axis_bodies. cbv zeta.
  destruct (OBB_axis tA tB i d st) as [[|] st']; cbn [fst snd].
  - apply IH.
  - reflexivity.
Qed.

Lemma OBBIntersection_bodies va tA vb tB x y ci :
  OBBIntersection va tA vb tB (with_bodies x y ci)
  = let r := OBBIntersection va tA vb tB ci in (fst r, with_bodies x y (snd r)).
Proof.
  unfold OBBIntersection. cbv zeta.
  change (mkOBBLoop FLT_MAX (-1) (with_bodies x y ci))
    with (loop_with_bodies x y (mkOBBLoop FLT_MAX (-1) ci)).
  rewrite OBB_loop_bodies. cbv zeta.
  destruct (OBB_loop _ _ _ _ _) as [[|] st]; reflexivity.
Qed.

(** The body references the dispatcher leaves in the manifold. *)
Lemma ObjectIntersection_bodies volA volB tA tB idA idB ci :
  let oa := object volA tA idA in
  let ob := object volB tB idB in
  let r := ObjectIntersection oa ob ci in
  (a (snd r), b (snd r))
  = if swaps (type volA) (type volB) then (Some ob, Some oa) else (Some oa, Some ob).
Proof.
  intros oa ob r. subst r. unfold oa, ob. rewrite ObjectIntersection_dispatch.
  fold oa ob. unfold ObjectIntersection_table.
  change (set_b (set_a ci oa) ob) with (with_bodies (Some oa) (Some ob) ci).
  change (set_b (set_a (with_bodies (Some oa) (Some ob) ci) ob) oa)
    with (with_bodies (Some ob) (Some oa) ci).
  destruct volA, volB; cbn [swaps type];
    first [ rewrite AABBIntersection_bodies | rewrite SphereIntersection_bodies
          | rewrite OBBIntersection_bodies | rewrite CapsuleIntersection_bodies
          | rewrite AABBSphereIntersection_bodies | rewrite SphereCapsuleIntersection_bodies
          | rewrite AABBCapsuleIntersection_bodies | rewrite SphereOBBIntersection_bodies
          | rewrite CapsuleOBBIntersection_bodies ];
    reflexivity.
Qed.

(** ** Missing bounding volumes *)

(** C7: a query on an object without a bounding volume fails gracefully.
    [RayIntersection] returns false and leaves the hit record as it was;
    [ObjectIntersection] returns false and leaves the manifold as it was,
    whichever of the two objects lacks the volume. *)
Theorem C7_missing_volume_gives_no_result (r : Ray) (t : Transform) (id : Z)
  (collision : RayCollision) (other : GameObject) (collisionInfo : CollisionInfo) :
  RayIntersection r (bare_object t id) collision = (false, collision)
  /\ ObjectIntersection (bare_object t id) other collisionInfo = (false, collisionInfo)
  /\ ObjectIntersection other (bare_object t id) collisionInfo = (false, collisionInfo).
Proof.
  repeat split; try reflexivity.
  unfold ObjectIntersection, bare_object. cbn [GetBoundingVolume].
  destruct (GetBoundingVolume other); reflexivity.
Qed.

(** ** Mixed box pairs *)

Lemma OBBSupport_corner (t : Transform) (d : Vector3) :
  exists sx sy sz, half_unit sx /\ half_unit sy /\ half_unit sz
                   /\ OBBSupport t d = GetMatrix_apply t (mkV sx sy sz).
Proof.
  unfold OBBSupport. cbv zeta.
  do 3 eexists. split; [|split; [|split; [|reflexivity]]]; unfold half_unit;
    match goal with |- context [if ?c then _ else _] => destruct c end; auto.
Qed.

Lemma OBBIntersection_ignores_half_dimensions hA hA' hB hB' oA oB tA tB ci :
  OBBIntersection (mkOBB hA oA) tA (mkOBB hB oB) tB ci
  = OBBIntersection (mkOBB hA' oA) tA (mkOBB hB' oB) tB ci.
Proof. reflexivity. Qed.

Lemma OBBIntersection_ignores_bodies va tA vb tB x y ci :
  let r := OBBIntersection va tA vb tB ci in
  let r' := OBBIntersection va tA vb tB (with_bodies x y ci) in
  fst r' = fst r /\ point (snd r') = point (snd r).
Proof. cbv zeta. rewrite OBBIntersection_bodies. split; reflexivity. Qed.

(** The contact of the separating-axis loop is either untouched or made of
    support points. *)
Lemma OBB_axis_anchored tA tB directions ci i d st :
  In d directions -> OBB_anchored tA tB directions ci st ->
  OBB_anchored tA tB directions ci (snd (OBB_axis tA tB i d st)).
Proof.
  intros Hin Hinv. unfold OBB_axis. cbv zeta.
  destruct (flt (Dot d d) (lit 99 100)) eqn:Hvalid; [exact Hinv|].
  repeat match goal with
         | |- context [if flt ?x ?y then _ else _] => destruct (flt x y)
         | |- context [if fle ?x ?y then _ else _] => destruct (fle x y)
         | |- context [if andb ?x ?y then _ else _] => destruct (andb x y)
         end;
    cbn [snd]; try exact Hinv;
    right; exists d; (split; [exact Hin|]); (split; [exact Hvalid|]);
    cbn [info leastPenetration set_normal set_localA set_localB point localA localB
         normal];
    first [ solve [left; repeat split] | solve [right; repeat split] ].
Qed.

Lemma OBB_loop_anchored tA tB all ci directions : forall i st,
  incl directions all -> OBB_anchored tA tB all ci st ->
  OBB_anchored tA tB all ci (snd (OBB_loop tA tB directions i st)).
Proof.
  induction directions as [|d rest IH]; intros i st Hincl Hinv; [exact Hinv|].
  cbn [OBB_loop].
  assert (Hstep := @OBB_axis_anchored tA tB all ci i d st
                     (Hincl d (or_introl eq_refl)) Hinv).
  destruct (OBB_axis tA tB i d st) as [[|] st']; cbn [snd] in *.
  - apply IH; [|exact Hstep]. intros x Hx. apply Hincl. right. exact Hx.
  - exact Hstep.
Qed.

Lemma OBBIntersection_anchored vA tA vB tB ci :
  let r := OBBIntersection vA tA vB tB ci in
  fst r = true ->
  snd r = stale_manifold vA tA vB tB ci
  \/ exists d la lb : Vector3,
      In d (OBB_directions tA tB)
      /\ OBB_contact tA tB d la lb (normal (point (snd r))) (penetration (point (snd r)))
      /\ localA (point (snd r)) = la [-] (GetPosition tA [+] OBB_GetOffset vA)
      /\ localB (point (snd r)) = lb [-] (GetPosition tB [+] OBB_GetOffset vB).
Proof.
  cbv zeta. unfold OBBIntersection. cbv zeta.
  assert (Hinv := @OBB_loop_anchored tA tB (OBB_directions tA tB) ci
                    (OBB_directions tA tB) 0%Z (mkOBBLoop FLT_MAX (-1) ci)
                    (incl_refl _) (or_introl (conj eq_refl eq_refl))).
  destruct (OBB_loop tA tB (OBB_directions tA tB) 0 (mkOBBLoop FLT_MAX (-1) ci))
    as [[|] st]; cbn [fst snd] in *; [|discriminate].
  intros _. destruct Hinv as [[Hp Hl]|(d & Hin & Hc)].
  - left. unfold stale_manifold.
    cbn [set_penetration set_localA set_localB point penetration normal localA localB a b].
    rewrite Hp, Hl. reflexivity.
  - right. exists d, (localA (point (info st))), (localB (point (info st))).
    cbn [set_penetration set_localA set_localB point penetration normal localA localB].
    split; [exact Hin|]. split; [exact Hc|]. split; reflexivity.
Qed.

(** C9: for an AABB paired with an OBB, in either argument order,
    [ObjectIntersection] runs the OBB-OBB routine on the AABB volume read as
    an OBB, with the bodies in the caller's order both as arguments and in
    the manifold.  The extents of that routine are the support points of
    [OBBSupport], each the transform matrix applied to a corner with
    coordinates 0.5 or -0.5: a reported contact is either the caller's
    stale one or has two such support points, taken relative to the body
    centres, as anchors, the axis or its opposite as normal, and a
    penetration computed from the projections of the support points on
    the axis.  The
    outcome and the contact point are the same whatever half dimensions the
    two volumes hold.  In binary32, the box of half extent 1 at the origin
    and the unit cube at (0.75, 0.25, 0.25) collide with penetration 0.25,
    the overlap of two cubes of side 1, and anchors at corners of half size
    0.5; with the cube at (1.5, 0.25, 0.25) no collision is reported,
    although the boxes of half extent 1 overlap. *)
Theorem C9_mixed_box_pair_uses_OBB_routine (va : AABBVolume) (vb : OBBVolume)
  (tA tB : Transform) (idA idB : Z) (ci : CollisionInfo) :
  let boxA := object (VolAABB va) tA idA in
  let boxB := object (VolOBB vb) tB idB in
  let asOBB := mkOBB (AABB_GetHalfDimensions va) (AABB_GetOffset va) in
  let centreA := GetPosition tA [+] AABB_GetOffset va in
  let centreB := GetPosition tB [+] OBB_GetOffset vb in
  ObjectIntersection boxA boxB ci
    = OBBIntersection asOBB tA vb tB (manifold boxA boxB (point ci))
  /\ ObjectIntersection boxB boxA ci
    = OBBIntersection vb tB asOBB tA (manifold boxB boxA (point ci))
  /\ a (snd (ObjectIntersection boxA boxB ci)) = Some boxA
  /\ b (snd (ObjectIntersection boxA boxB ci)) = Some boxB
  /\ a (snd (ObjectIntersection boxB boxA ci)) = Some boxB
  /\ b (snd (ObjectIntersection boxB boxA ci)) = Some boxA
  /\ (forall (t : Transform) (d : Vector3),
        exists sx sy sz, half_unit sx /\ half_unit sy /\ half_unit sz
                         /\ OBBSupport t d = GetMatrix_apply t (mkV sx sy sz))
  /\ (forall hA hB : Vector3,
        let boxA' := object (VolAABB (mkAABB hA (AABB_GetOffset va))) tA idA in
        let boxB' := object (VolOBB (mkOBB hB (OBB_GetOffset vb))) tB idB in
        fst (ObjectIntersection boxA' boxB' ci) = fst (ObjectIntersection boxA boxB ci)
        /\ point (snd (ObjectIntersection boxA' boxB' ci))
           = point (snd (ObjectIntersection boxA boxB ci))
        /\ fst (ObjectIntersection boxB' boxA' ci) = fst (ObjectIntersection boxB boxA ci)
        /\ point (snd (ObjectIntersection boxB' boxA' ci))
           = point (snd (ObjectIntersection boxB boxA ci)))
  /\ (let r := ObjectIntersection boxA boxB ci in
      fst r = true ->
      snd r = stale_manifold asOBB tA vb tB (manifold boxA boxB (point ci))
      \/ exists d la lb : Vector3,
          In d (OBB_directions tA tB)
          /\ OBB_contact tA tB d la lb (normal (point (snd r)))
               (penetration (point (snd r)))
          /\ localA (point (snd r)) = la [-] centreA
          /\ localB (point (snd r)) = lb [-] centreB)
  /\ (let r := ObjectIntersection boxB boxA ci in
      fst r = true ->
      snd r = stale_manifold vb tB asOBB tA (manifold boxB boxA (point ci))
      \/ exists d la lb : Vector3,
          In d (OBB_directions tB tA)
          /\ OBB_contact tB tA d la lb (normal (point (snd r)))
               (penetration (point (snd r)))
          /\ localA (point (snd r)) = la [-] centreB
          /\ localB (point (snd r)) = lb [-] centreA)
  /\ (let r := @ObjectIntersection Binary32 Example.box_object Example.cube_near
                  CollisionInfo_new in
      let r' := @ObjectIntersection Binary32 Example.cube_near Example.box_object
                  CollisionInfo_new in
      fst r = true
      /\ penetration (point (snd r)) = lit 1 4
      /\ normal (point (snd r)) = vec 1 0 0
      /\ localA (point (snd r)) = vec_halves 1 1 1
      /\ localB (point (snd r)) = vec_halves (-1) 1 1
      /\ fst r' = true
      /\ penetration (point (snd r')) = lit 1 4
      /\ localA (point (snd r')) = vec_halves (-1) 1 1
      /\ localB (point (snd r')) = vec_halves 1 1 1)
  /\ (@AABBTest Binary32 Vzero (vec_quarters 6 1 1) (vec 1 1 1) (vec 1 1 1) = true
      /\ fst (@ObjectIntersection Binary32 Example.box_object Example.cube_apart
                CollisionInfo_new) = false
      /\ fst (@ObjectIntersection Binary32 Example.cube_apart Example.box_object
                CollisionInfo_new) = false).
Proof.
  intros boxA boxB asOBB centreA centreB.
  assert (Hab := ObjectIntersection_bodies (VolAABB va) (VolOBB vb) tA tB idA idB ci).
  assert (Hba := ObjectIntersection_bodies (VolOBB vb) (VolAABB va) tB tA idB idA ci).
  cbv zeta in Hab, Hba. cbn [swaps type] in Hab, Hba. fold boxA boxB in Hab, Hba.
  injection Hab as Hab1 Hab2. injection Hba as Hba1 Hba2.
  assert (Eab : ObjectIntersection boxA boxB ci
                = OBBIntersection asOBB tA vb tB (manifold boxA boxB (point ci)))
    by reflexivity.
  assert (Eba : ObjectIntersection boxB boxA ci
                = OBBIntersection vb tB asOBB tA (manifold boxB boxA (point ci)))
    by reflexivity.
  split; [exact Eab|]. split; [exact Eba|].
  do 4 (split; [assumption|]).
  split; [apply OBBSupport_corner|].
  split.
  { intros hA hB boxA' boxB'.
    destruct vb as [hB0 oB]. destruct va as [hA0 oA].
    change (ObjectIntersection boxA' boxB' ci)
      with (OBBIntersection (mkOBB hA oA) tA (mkOBB hB oB) tB
              (with_bodies (Some boxA') (Some boxB') ci)).
    change (ObjectIntersection boxA boxB ci)
      with (OBBIntersection (mkOBB hA oA) tA (mkOBB hB oB) tB
              (with_bodies (Some boxA) (Some boxB) ci)).
    change (ObjectIntersection boxB' boxA' ci)
      with (OBBIntersection (mkOBB hB oB) tB (mkOBB hA oA) tA
              (with_bodies (Some boxB') (Some boxA') ci)).
    change (ObjectIntersection boxB boxA ci)
      with (OBBIntersection (mkOBB hB oB) tB (mkOBB hA oA) tA
              (with_bodies (Some boxB) (Some boxA) ci)).
    rewrite !OBBIntersection_bodies. cbv zeta. cbn [fst snd with_bodies point].
    repeat split. }
  split; [cbv zeta; rewrite Eab; apply OBBIntersection_anchored|].
  split; [cbv zeta; rewrite Eba; apply OBBIntersection_anchored|].
  split; cbv zeta; repeat split.
Qed.

(** ** What a failing call leaves behind *)

Lemma SphereIntersection_false va tA vb tB ci :
  fst (SphereIntersection va tA vb tB ci) = false ->
  snd (SphereIntersection va tA vb tB ci) = ci.
Proof.
  unfold SphereIntersection. cbv zeta.
  match goal with |- context [if ?c then _ else _] => destruct c end;
    cbn [fst snd]; [discriminate | reflexivity].
Qed.

Lemma AABBSphereIntersection_false va tA vb tB ci useBoxPoint :
  fst (AABBSphereIntersection va tA vb tB ci useBoxPoint) = false ->
  snd (AABBSphereIntersection va tA vb tB ci useBoxPoint) = ci.
Proof.
  unfold AABBSphereIntersection. cbv zeta.
  match goal with |- context [if ?c then _ else _] => destruct c end;
    cbn [fst snd]; [discriminate | reflexivity].
Qed.







(** ** The ordering of manifolds *)

Lemma hash_formula (x y : GameObject) :
  hash x y = ((GetWorldID x + GetWorldID y * 2 ^ 32) mod 2 ^ 64)%Z.
Proof.
  unfold hash, size_t_add, size_t_shl, size_t_of_int.
  rewrite Z.shiftl_mul_pow2 by lia.
  rewrite (Z.add_mod (GetWorldID x) (GetWorldID y * 2 ^ 32)) by lia.
  rewrite <- (Z.mul_mod_idemp_l (GetWorldID y)) by lia.
  reflexivity.
Qed.

Lemma hash_small (x y : GameObject) :
  (0 <= GetWorldID x < 2 ^ 31)%Z -> (0 <= GetWorldID y < 2 ^ 31)%Z ->
  hash x y = (GetWorldID x + Z.shiftl (GetWorldID y) 32)%Z.
Proof.
  intros Hx Hy. rewrite hash_formula, Z.shiftl_mul_pow2 by lia.
  apply Z.mod_small. lia.
Qed.

Lemma hash_injective (x y x' y' : GameObject) :
  is_int (GetWorldID x) -> is_int (GetWorldID y) ->
  is_int (GetWorldID x') -> is_int (GetWorldID y') ->
  hash x y = hash x' y' ->
  GetWorldID x = GetWorldID x' /\ GetWorldID y = GetWorldID y'.
Proof.
  unfold is_int. rewrite !hash_formula. intros Hx Hy Hx' Hy' H.
  set (u := (GetWorldID x + GetWorldID y * 2 ^ 32)%Z) in *.
  set (v := (GetWorldID x' + GetWorldID y' * 2 ^ 32)%Z) in *.
  assert (Hu := Z.div_mod u (2 ^ 64) ltac:(lia)).
  assert (Hv := Z.div_mod v (2 ^ 64) ltac:(lia)).
  rewrite H in Hu. subst u v. lia.
Qed.

Lemma CollisionInfo_lt_manifold (x y x' y' : GameObject) (p p' : ContactPoint) :
  CollisionInfo_lt (manifold x y p) (manifold x' y' p')
  = Some (Z.ltb (hash x y) (hash x' y')).
Proof.
  unfold CollisionInfo_lt, manifold. cbn [a b].
  destruct (Z.ltb (hash x y) (hash x' y')); reflexivity.
Qed.

(** C8, as the code has it: [operator<] compares the keys
    [idA + (idB << 32)], computed in 64 bits, of the two manifolds, each
    from its own first and second body in the order they are stored (the
    two identifiers are not sorted).  The relation is irreflexive and
    transitive on all manifolds, and two manifolds whose pairs of [int]
    identifiers differ are ordered one way or the other. *)
Theorem C8_manifold_order (x y x' y' x'' y'' : GameObject) (p p' p'' : ContactPoint) :
  let m := manifold x y p in
  let m' := manifold x' y' p' in
  let m'' := manifold x'' y'' p'' in
  let key := fun u v : GameObject =>
               ((GetWorldID u + GetWorldID v * 2 ^ 32) mod 2 ^ 64)%Z in
  CollisionInfo_lt m m' = Some (Z.ltb (key x y) (key x' y'))
  /\ ((0 <= GetWorldID x < 2 ^ 31)%Z -> (0 <= GetWorldID y < 2 ^ 31)%Z ->
      key x y = (GetWorldID x + Z.shiftl (GetWorldID y) 32)%Z)
  /\ CollisionInfo_lt m m = Some false
  /\ (CollisionInfo_lt m m' = Some true -> CollisionInfo_lt m' m'' = Some true ->
      CollisionInfo_lt m m'' = Some true)
  /\ (is_int (GetWorldID x) -> is_int (GetWorldID y) ->
      is_int (GetWorldID x') -> is_int (GetWorldID y') ->
      (GetWorldID x, GetWorldID y) <> (GetWorldID x', GetWorldID y') ->
      CollisionInfo_lt m m' = Some true \/ CollisionInfo_lt m' m = Some true).
Proof.
  intros m m' m'' key. subst m m' m''.
  rewrite !CollisionInfo_lt_manifold.
  assert (Hkey : forall u v, key u v = hash u v)
    by (intros; unfold key; rewrite hash_formula; reflexivity).
  rewrite !Hkey. repeat split.
  - intros Hx Hy. apply hash_small; assumption.
  - rewrite Z.ltb_irrefl. reflexivity.
  - intros H1 H2. injection H1 as H1. injection H2 as H2. f_equal. lia.
  - intros Hx Hy Hx' Hy' Hne.
    destruct (Z.lt_trichotomy (hash x y) (hash x' y')) as [H|[H|H]].
    + left. f_equal. lia.
    + destruct (hash_injective _ _ _ _ Hx Hy Hx' Hy' H) as [E1 E2].
      exfalso. apply Hne. congruence.
    + right. f_equal. lia.
Qed.

(** C8, against the spec's wording: with the lower identifier first the two
    manifolds over bodies 1 and 2 would share one key and be unordered; the
    code puts the one stored as (2, 1) before the one stored as (1, 2). *)
Lemma C8_identifiers_are_not_sorted :
  @CollisionInfo_lt Binary32 Example.manifold_21 Example.manifold_12 = Some true
  /\ @spec_lt Binary32 Example.manifold_21 Example.manifold_12 = Some false
  /\ @spec_lt Binary32 Example.manifold_12 Example.manifold_21 = Some false.
Proof. repeat split; vm_compute; reflexivity. Qed.

(** ** Pairs the dispatcher puts in canonical order *)

Lemma ObjectIntersection_swapped (volA volB : CollisionVolume) (tA tB : Transform)
  (idA idB : Z) (ci : CollisionInfo) :
  swaps (type volA) (type volB) = true ->
  ObjectIntersection (object volA tA idA) (object volB tB idB) ci
  = ObjectIntersection (object volB tB idB) (object volA tA idA) ci.
Proof.
  destruct volA, volB; cbn [swaps type]; intros H;
    solve [discriminate H | reflexivity].
Qed.

End AnyArithmetic.

(** * Properties over the real numbers *)

Section RealModel.
Local Existing Instance RealFloat.
Local Open Scope R_scope.

Ltac real :=
  cbn [float of_Z fadd fsub fmul fdiv fneg fabs fsqrt flt fle feq FLT_MAX RealFloat] in *;
  change (@float RealFloat) with R in *.


(** ** Comparisons *)

Lemma ltb_true (x y : R) : x < y -> RF.ltb x y = true.
Proof. intros H. unfold RF.ltb. destruct (Rlt_dec x y); [reflexivity|contradiction]. Qed.

Lemma ltb_false (x y : R) : ~ x < y -> RF.ltb x y = false.
Proof. intros H. unfold RF.ltb. destruct (Rlt_dec x y); [contradiction|reflexivity]. Qed.

Lemma ltb_iff (x y : R) : RF.ltb x y = true <-> x < y.
Proof.
  unfold RF.ltb. destruct (Rlt_dec x y); split; intros H;
    solve [assumption | reflexivity | discriminate H | contradiction].
Qed.

Lemma leb_iff (x y : R) : RF.leb x y = true <-> x <= y.
Proof.
  unfold RF.leb. destruct (Rle_dec x y); split; intros H;
    solve [assumption | reflexivity | discriminate H | contradiction].
Qed.

Lemma eqb_true (x y : R) : x = y -> RF.eqb x y = true.
Proof. intros H. unfold RF.eqb. destruct (Req_dec_T x y); [reflexivity|contradiction]. Qed.

Lemma eqb_false (x y : R) : x <> y -> RF.eqb x y = false.
Proof. intros H. unfold RF.eqb. destruct (Req_dec_T x y); [contradiction|reflexivity]. Qed.

(** ** Vectors *)

Lemma Vector3_eq (u v : Vector3) :
  vx u = vx v -> vy u = vy v -> vz u = vz v -> u = v.
Proof. destruct u, v; cbn; intros; subst; reflexivity. Qed.

(** Concrete inputs, written out. *)
Ltac inputs :=
  cbv [pose_at pose_scaled SetPosition SetScale Transform_default vec vec_halves
       lit f0 f1 two Vzero Qidentity GetPosition GetOrientation GetScale
       Example.unit_sphere Example.unit_box Example.ray_along_x
       Sphere_GetRadius Sphere_GetOffset AABB_GetHalfDimensions AABB_GetOffset
       Ray_GetPosition Ray_GetDirection
       Vadd Vsub Vneg Vscale Dot vx vy vz] in *;
  real.

(** Componentwise goals on vectors. *)
Ltac vector_eq :=
  apply Vector3_eq; cbn [vx vy vz Vadd Vsub Vneg Vscale]; real.

Lemma sum_squares_nonneg (x y z : R) : 0 <= x * x + y * y + z * z.
Proof. nra. Qed.

Lemma Length_nonneg (v : Vector3) : 0 <= Length v.
Proof. unfold Length. real. apply sqrt_pos. Qed.

Lemma Length_square (v : Vector3) :
  Length v * Length v = vx v * vx v + vy v * vy v + vz v * vz v.
Proof. unfold Length. real. apply sqrt_sqrt, sum_squares_nonneg. Qed.

Lemma Length_zero (v : Vector3) :
  Length v = 0 <-> vx v = 0 /\ vy v = 0 /\ vz v = 0.
Proof.
  split.
  - intros H. assert (H2 := Length_square v). rewrite H in H2. nra.
  - intros (Hx & Hy & Hz). unfold Length. real. rewrite Hx, Hy, Hz.
    replace (0 * 0 + 0 * 0 + 0 * 0) with 0 by ring. apply sqrt_0.
Qed.

Lemma Length_Vneg (v : Vector3) : Length ([-] v) = Length v.
Proof. unfold Length, Vneg. real. cbn [vx vy vz]. f_equal. ring. Qed.

Lemma Length_axis (x : R) : 0 <= x -> Length (mkV x 0 0) = x.
Proof.
  intros H. unfold Length. real. cbn [vx vy vz].
  replace (x * x + 0 * 0 + 0 * 0) with (x * x) by ring. apply sqrt_square, H.
Qed.

Lemma Normalised_Vneg (v : Vector3) : Normalised ([-] v) = [-] Normalised v.
Proof.
  unfold Normalised. cbv zeta. rewrite Length_Vneg. real.
  match goal with |- context [RF.eqb ?x ?y] => destruct (RF.eqb x y) end;
    [reflexivity|].
  vector_eq; ring.
Qed.

Lemma Normalised_zero (v : Vector3) : Length v = 0 -> Normalised v = v.
Proof.
  intros H. unfold Normalised. cbv zeta. real. unfold f0. real.
  rewrite eqb_true by assumption. reflexivity.
Qed.

Lemma Normalised_nonzero (v : Vector3) :
  Length v <> 0 ->
  Normalised v = mkV (vx v / Length v) (vy v / Length v) (vz v / Length v).
Proof.
  intros H. unfold Normalised. cbv zeta. real. unfold f0, f1. real.
  rewrite eqb_false by assumption.
  vector_eq; field; assumption.
Qed.

Lemma Normalised_unit (v : Vector3) : Length v <> 0 -> Length (Normalised v) = 1.
Proof.
  intros H. rewrite Normalised_nonzero by assumption.
  assert (Hpos := Length_nonneg v). assert (Hsq := Length_square v).
  unfold Length at 1. real. cbn [vx vy vz].
  replace (vx v / Length v * (vx v / Length v) + vy v / Length v * (vy v / Length v)
           + vz v / Length v * (vz v / Length v))
    with ((vx v * vx v + vy v * vy v + vz v * vz v) / (Length v * Length v))
    by (field; assumption).
  rewrite <- Hsq. replace (Length v * Length v / (Length v * Length v)) with 1
    by (field; assumption).
  apply sqrt_1.
Qed.

Lemma Normalised_scale (v : Vector3) : Normalised v [*] Length v = v.
Proof.
  destruct (Req_dec_T (Length v) 0) as [H|H].
  - rewrite Normalised_zero by assumption. rewrite H.
    apply Length_zero in H. destruct H as (Hx & Hy & Hz).
    vector_eq; nra.
  - rewrite Normalised_nonzero by assumption.
    vector_eq; field; assumption.
Qed.

(** ** Sphere against sphere *)

Lemma SphereIntersection_real (volA volB : SphereVolume) (tA tB : Transform)
  (ci : CollisionInfo) :
  let centreA := GetPosition tA [+] Sphere_GetOffset volA in
  let centreB := GetPosition tB [+] Sphere_GetOffset volB in
  let radii := Sphere_GetRadius volA + Sphere_GetRadius volB in
  let distance := Length (centreB [-] centreA) in
  let n := Normalised (centreB [-] centreA) in
  SphereIntersection volA tA volB tB ci
  = if Rlt_dec 0 (radii - distance)
    then (true, AddContactPoint ci (n [*] Sphere_GetRadius volA)
                  (([-] n) [*] Sphere_GetRadius volB) n (radii - distance))
    else (false, ci).
Proof.
  cbv zeta. unfold SphereIntersection. real. unfold RF.ltb.
  repeat match goal with |- context [Rlt_dec ?x ?y] => destruct (Rlt_dec x y) end.
  all: solve [reflexivity | exfalso; lra].
Qed.

Lemma example_distance :
  Length ((@pose_at RealFloat (vec_halves 3 0 0)).(GetPosition)
          [+] Sphere_GetOffset Example.unit_sphere
          [-] ((@pose_at RealFloat Vzero).(GetPosition)
               [+] Sphere_GetOffset Example.unit_sphere)) = 3 / 2.
Proof.
  rewrite <- (Length_axis (x := 3 / 2)) by lra. f_equal.
  inputs. f_equal; lra.
Qed.

(** Two spheres collide exactly when the sum of the radii minus the
    distance of the centres (position plus offset) is positive.  The
    penetration is that difference, the normal is the normalised vector
    from A's centre to B's centre: it points along that vector and has
    length 1 unless the centres coincide.  The anchors are the normal
    scaled by A's radius and the opposite normal scaled by B's radius,
    displacements from each sphere's own offset centre.  Two unit spheres
    with centres 1.5 apart collide with penetration 0.5, over the reals and
    in binary32 alike. *)
Theorem SphereIntersection_contact_data (volA volB : SphereVolume) (tA tB : Transform)
  (ci : CollisionInfo) :
  let centreA := GetPosition tA [+] Sphere_GetOffset volA in
  let centreB := GetPosition tB [+] Sphere_GetOffset volB in
  let radii := Sphere_GetRadius volA + Sphere_GetRadius volB in
  let distance := Length (centreB [-] centreA) in
  let n := Normalised (centreB [-] centreA) in
  SphereIntersection volA tA volB tB ci
  = (if Rlt_dec 0 (radii - distance)
     then (true, AddContactPoint ci (n [*] Sphere_GetRadius volA)
                   (([-] n) [*] Sphere_GetRadius volB) n (radii - distance))
     else (false, ci))
  /\ n [*] distance = centreB [-] centreA
  /\ (distance = 0 \/ Length n = 1)
  /\ (let r := SphereIntersection Example.unit_sphere (pose_at Vzero)
                 Example.unit_sphere (pose_at (vec_halves 3 0 0)) ci in
      fst r = true /\ penetration (point (snd r)) = 1 / 2)
  /\ (let r := @SphereIntersection Binary32 Example.unit_sphere (pose_at Vzero)
                 Example.unit_sphere (pose_at (vec_halves 3 0 0)) CollisionInfo_new in
      fst r = true /\ penetration (point (snd r)) = lit 1 2
      /\ normal (point (snd r)) = vec 1 0 0).
Proof.
  intros centreA centreB radii distance n.
  split; [apply SphereIntersection_real|].
  split; [apply Normalised_scale|].
  split.
  { destruct (Req_dec_T distance 0) as [H|H]; [left; exact H|].
    right. apply Normalised_unit. exact H. }
  split.
  - cbv zeta. rewrite SphereIntersection_real. cbv zeta.
    rewrite example_distance. unfold Example.unit_sphere. cbn [Sphere_GetRadius].
    unfold f1. real.
    destruct (Rlt_dec 0 (1 + 1 - 3 / 2)) as [H|H]; [|exfalso; lra].
    cbn [fst snd AddContactPoint point penetration]. split; [reflexivity|lra].
  - cbv zeta. repeat split.
Qed.

(** ** Ray against sphere *)

Lemma RaySphereIntersection_real (r : Ray) (t : Transform) (volume : SphereVolume)
  (collision : RayCollision) :
  let spherePos := GetPosition t [+] Sphere_GetOffset volume in
  let projection := Dot (spherePos [-] Ray_GetPosition r) (Ray_GetDirection r) in
  let projected := Ray_GetPosition r [+] Ray_GetDirection r [*] projection in
  let distance := Length (projected [-] spherePos) in
  let radius := Sphere_GetRadius volume in
  let near := projection - sqrt (radius * radius - distance * distance) in
  RaySphereIntersection r t volume collision
  = if Rlt_dec projection 0 then (false, collision)
    else if Rlt_dec radius distance then (false, collision)
    else (true, mkRayCollision (Ray_GetPosition r [+] Ray_GetDirection r [*] near) near).
Proof.
  cbv zeta. unfold RaySphereIntersection. real. unfold RF.ltb, f0. real.
  repeat match goal with |- context [Rlt_dec ?x ?y] => destruct (Rlt_dec x y) end;
    solve [reflexivity | exfalso; lra].
Qed.

(** With a unit direction the reported point lies on the sphere. *)
Lemma RaySphere_hit_on_sphere (r : Ray) (t : Transform) (volume : SphereVolume) :
  let spherePos := GetPosition t [+] Sphere_GetOffset volume in
  let projection := Dot (spherePos [-] Ray_GetPosition r) (Ray_GetDirection r) in
  let projected := Ray_GetPosition r [+] Ray_GetDirection r [*] projection in
  let distance := Length (projected [-] spherePos) in
  let radius := Sphere_GetRadius volume in
  let near := projection - sqrt (radius * radius - distance * distance) in
  Dot (Ray_GetDirection r) (Ray_GetDirection r) = 1 ->
  distance <= radius ->
  Length (Ray_GetPosition r [+] Ray_GetDirection r [*] near [-] spherePos) = radius.
Proof.
  intros spherePos projection projected distance radius near Hunit Hle.
  assert (Hd0 : 0 <= distance) by apply Length_nonneg.
  assert (Hr0 : 0 <= radius) by lra.
  assert (Hdd : distance * distance
                = vx (projected [-] spherePos) * vx (projected [-] spherePos)
                  + vy (projected [-] spherePos) * vy (projected [-] spherePos)
                  + vz (projected [-] spherePos) * vz (projected [-] spherePos))
    by apply Length_square.
  set (off := sqrt (radius * radius - distance * distance)) in *.
  assert (Hoff : off * off = radius * radius - distance * distance)
    by (apply sqrt_sqrt; nra).
  rewrite <- (sqrt_square radius) by assumption.
  unfold Length. real. f_equal.
  subst near projected. clearbody off distance radius.
  destruct r as [[px py pz] [dx dy dz]]. destruct spherePos as [cx cy cz].
  cbv [Vadd Vsub Vscale Dot vx vy vz Ray_GetPosition Ray_GetDirection] in *. real.
  assert (Hperp : (px + dx * projection - cx) * dx + (py + dy * projection - cy) * dy
                  + (pz + dz * projection - cz) * dz = 0).
  { transitivity (projection * (dx * dx + dy * dy + dz * dz - 1));
      [unfold projection; ring | rewrite Hunit; ring]. }
  clearbody projection.
  transitivity
    ((px + dx * projection - cx) * (px + dx * projection - cx)
     + (py + dy * projection - cy) * (py + dy * projection - cy)
     + (pz + dz * projection - cz) * (pz + dz * projection - cz)
     + off * off * (dx * dx + dy * dy + dz * dz)
     - 2 * off * ((px + dx * projection - cx) * dx + (py + dy * projection - cy) * dy
                  + (pz + dz * projection - cz) * dz));
    [ring | rewrite Hperp, Hunit, <- Hdd; lra].
Qed.

Lemma ray_example_projection :
  Dot ((@pose_at RealFloat Vzero).(GetPosition) [+] Sphere_GetOffset Example.unit_sphere
       [-] Ray_GetPosition Example.ray_along_x)
      (Ray_GetDirection Example.ray_along_x) = 5.
Proof. inputs. lra. Qed.

Lemma ray_example_distance :
  Length (Ray_GetPosition Example.ray_along_x
          [+] Ray_GetDirection Example.ray_along_x [*] 5
          [-] ((@pose_at RealFloat Vzero).(GetPosition)
               [+] Sphere_GetOffset Example.unit_sphere)) = 0.
Proof. apply Length_zero. inputs. repeat split; lra. Qed.

(** C6: with the projection of (sphere centre - ray origin) onto the ray
    direction and the distance from the projected point to the centre, the
    ray-sphere test reports no hit, and leaves the hit record alone, when
    the projection is negative or the distance exceeds the radius; otherwise
    it reports the distance projection - sqrt(radius^2 - distance^2) and the
    point at that distance along the ray, which lies on the sphere when the
    direction has length 1.  The ray from (-5,0,0) along +x hits the unit
    sphere at the origin at distance 4 in the point (-1,0,0), over the
    reals and in binary32 alike. *)
Theorem C6_ray_sphere (r : Ray) (t : Transform) (volume : SphereVolume)
  (collision : RayCollision) :
  let spherePos := GetPosition t [+] Sphere_GetOffset volume in
  let projection := Dot (spherePos [-] Ray_GetPosition r) (Ray_GetDirection r) in
  let projected := Ray_GetPosition r [+] Ray_GetDirection r [*] projection in
  let distance := Length (projected [-] spherePos) in
  let radius := Sphere_GetRadius volume in
  let near := projection - sqrt (radius * radius - distance * distance) in
  RaySphereIntersection r t volume collision
  = (if Rlt_dec projection 0 then (false, collision)
     else if Rlt_dec radius distance then (false, collision)
     else (true, mkRayCollision (Ray_GetPosition r [+] Ray_GetDirection r [*] near) near))
  /\ (Dot (Ray_GetDirection r) (Ray_GetDirection r) = 1 -> distance <= radius ->
      Length (Ray_GetPosition r [+] Ray_GetDirection r [*] near [-] spherePos) = radius)
  /\ (let res := RaySphereIntersection Example.ray_along_x (pose_at Vzero)
                   Example.unit_sphere collision in
      fst res = true /\ rayDistance (snd res) = 4
      /\ collidedAt (snd res) = vec (-1) 0 0)
  /\ (let res := @RaySphereIntersection Binary32 Example.ray_along_x (pose_at Vzero)
                   Example.unit_sphere (mkRayCollision Vzero f0) in
      fst res = true /\ rayDistance (snd res) = of_Z 4
      /\ collidedAt (snd res) = mkV (of_Z (-1)) f0 f0).
Proof.
  split; [apply RaySphereIntersection_real|].
  split; [apply RaySphere_hit_on_sphere|].
  split.
  - cbv zeta. rewrite RaySphereIntersection_real. cbv zeta.
    rewrite ray_example_projection, ray_example_distance.
    inputs.
    destruct (Rlt_dec 5 0) as [H|_]; [exfalso; lra|].
    destruct (Rlt_dec 1 0) as [H|_]; [exfalso; lra|].
    replace (1 * 1 - 0 * 0) with 1 by lra.
    rewrite sqrt_1. cbn [fst snd rayDistance collidedAt].
    split; [reflexivity|]. split; [lra|]. f_equal; lra.
  - cbv zeta. repeat split.
Qed.

(** ** Box against box *)

Lemma AABBTest_real (posA posB halfSizeA halfSizeB : Vector3) :
  AABBTest posA posB halfSizeA halfSizeB = true
  <-> Rabs (vx posB - vx posA) < vx halfSizeA + vx halfSizeB
      /\ Rabs (vy posB - vy posA) < vy halfSizeA + vy halfSizeB
      /\ Rabs (vz posB - vz posA) < vz halfSizeA + vz halfSizeB.
Proof.
  unfold AABBTest. cbv zeta. cbn [Vsub Vadd vx vy vz]. real.
  rewrite !andb_true_iff, !ltb_iff. tauto.
Qed.

(** The loop keeps the first strictly smallest distance. *)
Lemma bestFace_spec (l : list (@float RealFloat * Vector3)) :
  forall (p0 : @float RealFloat) (f0 : Vector3),
  let r := bestFace l (p0, f0) in
  (forall d f, In (d, f) l -> fst r <= d)
  /\ fst r <= p0
  /\ ((r = (p0, f0) /\ forall d f, In (d, f) l -> p0 <= d)
      \/ (exists i, nth_error l i = Some r /\ fst r < p0
                    /\ forall j e, (j < i)%nat -> nth_error l j = Some e -> fst r < fst e)).
Proof.
  induction l as [|[d f] rest IH]; intros p0 f0.
  - cbn. split; [intros ? ? []|]. split; [lra|]. left. split; [reflexivity|intros ? ? []].
  - cbn [bestFace fst]. real. unfold RF.ltb. destruct (Rlt_dec d p0) as [Hlt|Hge].
    + specialize (IH d f). cbv zeta in IH. destruct IH as (Hall & Hle & Hcase).
      set (r := @bestFace RealFloat rest (d, f)) in *.
      split; [|split; [cbn [fst] in Hle; lra|]].
      * intros e g [E|Hin]; [injection E as <- <-; exact Hle|eauto].
      * right. destruct Hcase as [[E _]|(i & Hi & Hlti & Hfirst)].
        -- exists 0%nat. cbn [nth_error]. rewrite E. cbn [fst].
           split; [reflexivity|]. split; [lra|]. intros j e Hj. lia.
        -- exists (S i). cbn [nth_error]. split; [exact Hi|]. cbn [fst] in *.
           split; [lra|]. intros [|j] e Hj He.
           ++ cbn in He. injection He as <-. cbn [fst]. exact Hlti.
           ++ cbn in He. apply (Hfirst j e); [lia|exact He].
    + specialize (IH p0 f0). cbv zeta in IH. destruct IH as (Hall & Hle & Hcase).
      set (r := @bestFace RealFloat rest (p0, f0)) in *. cbn [fst] in *.
      split; [|split; [lra|]].
      * intros e g [E|Hin]; [injection E as <- <-; lra|eauto].
      * destruct Hcase as [[E Hmin]|(i & Hi & Hlti & Hfirst)].
        -- left. split; [exact E|]. intros e g [E'|Hin]; [injection E' as <- <-; lra|eauto].
        -- right. exists (S i). cbn [nth_error]. split; [exact Hi|].
           split; [lra|]. intros [|j] e Hj He.
           ++ cbn in He. injection He as <-. cbn [fst]. lra.
           ++ cbn in He. apply (Hfirst j e); [lia|exact He].
Qed.

Lemma least_le (d0 : R) (ds : list R) :
  least d0 ds <= d0 /\ forall d, In d ds -> least d0 ds <= d.
Proof.
  induction ds as [|e ds [IH0 IH]]; cbn [least fold_right].
  - split; [lra|intros ? []].
  - fold (least d0 ds). split.
    + eapply Rle_trans; [apply Rmin_r|exact IH0].
    + intros d [<-|Hin]; [apply Rmin_l|].
      eapply Rle_trans; [apply Rmin_r|apply IH, Hin].
Qed.

Lemma least_In (d0 : R) (ds : list R) : least d0 ds = d0 \/ In (least d0 ds) ds.
Proof.
  induction ds as [|e ds IH]; cbn [least fold_right]; [left; reflexivity|].
  fold (least d0 ds). unfold Rmin. destruct (Rle_dec e (least d0 ds)).
  - right. left. reflexivity.
  - destruct IH as [->|Hin]; [left; reflexivity|right; right; exact Hin].
Qed.

Lemma minimum_le (l : list R) (d : R) : In d l -> minimum l <= d.
Proof.
  destruct l as [|d0 ds]; [intros []|]. cbn [minimum].
  destruct (least_le d0 ds) as [H0 H]. intros [<-|Hin]; [exact H0|exact (H d Hin)].
Qed.

Lemma minimum_In (l : list R) : l <> [] -> In (minimum l) l.
Proof.
  destruct l as [|d0 ds]; [congruence|]. intros _. cbn [minimum].
  destruct (least_In d0 ds) as [->|Hin]; [left; reflexivity|right; exact Hin].
Qed.

Lemma bestFace_six (d0 d1 d2 d3 d4 d5 : R) (g0 g1 g2 g3 g4 g5 z : Vector3) :
  let ds := [d0; d1; d2; d3; d4; d5] in
  let gs := [g0; g1; g2; g3; g4; g5] in
  let m := minimum ds in
  m < RF.max_float ->
  exists i face,
    nth_error ds i = Some m /\ nth_error gs i = Some face
    /\ (forall j d, (j < i)%nat -> nth_error ds j = Some d -> m < d)
    /\ @bestFace RealFloat (combine ds gs) (RF.max_float, z) = (m, face).
Proof.
  intros ds gs m Hm.
  assert (Hmin : forall d, In d ds -> m <= d) by (intros; apply minimum_le; assumption).
  assert (Hin : In m ds) by (apply minimum_In; discriminate).
  clearbody m. subst ds gs.
  destruct (bestFace_spec (combine [d0; d1; d2; d3; d4; d5] [g0; g1; g2; g3; g4; g5])
              RF.max_float z) as (Hall & _ & Hcase).
  cbv zeta in Hall, Hcase. real.
  set (r := @bestFace RealFloat _ (RF.max_float, z)) in *.
  assert (Hpair : forall d, In d [d0; d1; d2; d3; d4; d5] ->
                  exists g, In (d, g) (combine [d0; d1; d2; d3; d4; d5]
                                               [g0; g1; g2; g3; g4; g5])).
  { intros d Hd. cbn in Hd.
    destruct Hd as [<-|[<-|[<-|[<-|[<-|[<-|[]]]]]]]; eexists; cbn; eauto 8. }
  destruct Hcase as [[_ Hge]|(i & Hi & _ & Hfirst)].
  - exfalso. destruct (Hpair m Hin) as [g Hg]. specialize (Hge m g Hg). real. lra.
  - destruct r as [p face] eqn:Er. cbn [fst] in *.
    assert (Hp : p = m).
    { apply Rle_antisym.
      - destruct (Hpair m Hin) as [g Hg]. exact (Hall m g Hg).
      - apply Hmin. apply nth_error_In in Hi. cbn in Hi.
        destruct Hi as [E|[E|[E|[E|[E|[E|[]]]]]]]; injection E as <- _; cbn; auto 8. }
    subst p. exists i, face.
    do 6 (destruct i as [|i];
          [cbn in Hi; injection Hi as E1 E2; cbn [nth_error]; rewrite ?E1, ?E2;
           split; [reflexivity|]; split; [reflexivity|]; split; [|reflexivity];
           intros j d Hj Hd;
           repeat (destruct j as [|j]; [cbn in Hd; injection Hd as <-;
                                        match type of Hj with
                                        | (?k < _)%nat =>
                                            refine (Hfirst k (_, _) Hj eq_refl)
                                        end|]);
           exfalso; lia|]).
    destruct i; cbn in Hi; discriminate Hi.
Qed.

(** Comparisons of concrete reals, decided by linear arithmetic. *)
Ltac decide_ltb :=
  repeat match goal with
         | |- context [RF.ltb ?x ?y] =>
             first [ rewrite (@ltb_true x y) by lra | rewrite (@ltb_false x y) by lra ]
         end.

Lemma AABBIntersection_no_overlap volumeA tA volumeB tB ci :
  fst (AABBIntersection volumeA tA volumeB tB ci) = false ->
  snd (AABBIntersection volumeA tA volumeB tB ci) = ci.
Proof.
  unfold AABBIntersection. cbv zeta. destruct (AABBTest _ _ _ _); [|reflexivity].
  destruct (bestFace _ _). cbn. discriminate.
Qed.

Lemma AABBIntersection_overlap volumeA tA volumeB tB ci :
  fst (AABBIntersection volumeA tA volumeB tB ci)
  = AABBTest (GetPosition tA [+] AABB_GetOffset volumeA)
             (GetPosition tB [+] AABB_GetOffset volumeB)
             (AABB_GetHalfDimensions volumeA) (AABB_GetHalfDimensions volumeB).
Proof.
  unfold AABBIntersection. cbv zeta. destruct (AABBTest _ _ _ _); [|reflexivity].
  destruct (bestFace _ _). reflexivity.
Qed.

Lemma AABBIntersection_contact volumeA tA volumeB tB ci :
  let distances := face_distances volumeA tA volumeB tB in
  let m := minimum distances in
  fst (AABBIntersection volumeA tA volumeB tB ci) = true ->
  m < RF.max_float ->
  exists i face,
    nth_error distances i = Some m /\ nth_error faces i = Some face
    /\ (forall j d, (j < i)%nat -> nth_error distances j = Some d -> m < d)
    /\ snd (AABBIntersection volumeA tA volumeB tB ci)
       = AddContactPoint ci Vzero Vzero face m.
Proof.
  intros distances m Hhit Hm. rewrite AABBIntersection_overlap in Hhit.
  unfold AABBIntersection. cbv zeta. rewrite Hhit.
  unfold face_distances in distances. cbv zeta in distances.
  destruct (bestFace_six _ _ _ _ _ _
              (@mkV RealFloat (of_Z (-1)) f0 f0) (@mkV RealFloat f1 f0 f0)
              (@mkV RealFloat f0 (of_Z (-1)) f0) (@mkV RealFloat f0 f1 f0)
              (@mkV RealFloat f0 f0 (of_Z (-1))) (@mkV RealFloat f0 f0 f1)
              Vzero Hm) as (i & face & H1 & H2 & H3 & H4).
  exists i, face. repeat split; try assumption.
  unfold faces. real. rewrite H4. reflexivity.
Qed.

(** C4: two boxes collide exactly when on each of the three axes the
    absolute difference of the centres is strictly less than the sum of the
    half extents; without overlap the manifold is left alone.  On overlap
    the penetration is the minimum of the six face distances and the normal
    is the face paired with the first distance that attains it, both
    anchors are the zero vector.  (The loop starts from FLT_MAX, so the
    minimum has to lie below it.)  A box of half extent 1 at the origin and
    the same box at (0.5,0,0) collide with penetration 1.5 and normal
    (1,0,0), over the reals and in binary32 alike. *)
Theorem C4_aabb_aabb (volumeA volumeB : AABBVolume) (tA tB : Transform)
  (ci : CollisionInfo) :
  let posA := GetPosition tA [+] AABB_GetOffset volumeA in
  let posB := GetPosition tB [+] AABB_GetOffset volumeB in
  let sizeA := AABB_GetHalfDimensions volumeA in
  let sizeB := AABB_GetHalfDimensions volumeB in
  let distances := face_distances volumeA tA volumeB tB in
  let m := minimum distances in
  let r := AABBIntersection volumeA tA volumeB tB ci in
  (fst r = true
   <-> Rabs (vx posB - vx posA) < vx sizeA + vx sizeB
       /\ Rabs (vy posB - vy posA) < vy sizeA + vy sizeB
       /\ Rabs (vz posB - vz posA) < vz sizeA + vz sizeB)
  /\ (fst r = false -> snd r = ci)
  /\ (fst r = true -> m < RF.max_float ->
      exists i face,
        nth_error distances i = Some m /\ nth_error faces i = Some face
        /\ (forall j d, (j < i)%nat -> nth_error distances j = Some d -> m < d)
        /\ snd r = AddContactPoint ci Vzero Vzero face m)
  /\ (let r := AABBIntersection Example.unit_box (pose_at Vzero)
                 Example.unit_box (pose_at (vec_halves 1 0 0)) ci in
      fst r = true /\ penetration (point (snd r)) = 3 / 2
      /\ normal (point (snd r)) = vec 1 0 0
      /\ localA (point (snd r)) = Vzero /\ localB (point (snd r)) = Vzero)
  /\ (let r := @AABBIntersection Binary32 Example.unit_box (pose_at Vzero)
                 Example.unit_box (pose_at (vec_halves 1 0 0)) CollisionInfo_new in
      fst r = true /\ penetration (point (snd r)) = lit 3 2
      /\ normal (point (snd r)) = vec 1 0 0
      /\ localA (point (snd r)) = Vzero /\ localB (point (snd r)) = Vzero).
Proof.
  intros posA posB sizeA sizeB distances m r.
  split; [unfold r; rewrite AABBIntersection_overlap; apply AABBTest_real|].
  split; [apply AABBIntersection_no_overlap|].
  split; [apply AABBIntersection_contact|].
  split.
  - clear. cbv zeta. unfold AABBIntersection. cbv zeta.
    assert (Hov : AABBTest
                    (GetPosition (pose_at Vzero) [+] AABB_GetOffset Example.unit_box)
                    (GetPosition (pose_at (vec_halves 1 0 0))
                     [+] AABB_GetOffset Example.unit_box)
                    (AABB_GetHalfDimensions Example.unit_box)
                    (AABB_GetHalfDimensions Example.unit_box) = true).
    { apply AABBTest_real. inputs. repeat split; apply Rabs_def1; lra. }
    rewrite Hov. clear Hov. unfold faces. cbn [combine bestFace fst]. inputs.
    unfold RF.max_float. decide_ltb.
    cbn [fst snd AddContactPoint point penetration normal localA localB].
    repeat split; try reflexivity; lra.
  - cbv zeta. repeat split.
Qed.

(** ** Exchanging the two bodies *)

Lemma Vsub_swap (u v : Vector3) : u [-] v = [-] (v [-] u).
Proof. vector_eq; ring. Qed.

Lemma SphereIntersection_mirrored sA tA sB tB ci ci' :
  mirrored (SphereIntersection sA tA sB tB ci) (SphereIntersection sB tB sA tA ci').
Proof.
  unfold mirrored. rewrite !SphereIntersection_real. cbv zeta.
  rewrite (Vsub_swap (GetPosition tA [+] Sphere_GetOffset sA)
                     (GetPosition tB [+] Sphere_GetOffset sB)).
  rewrite Length_Vneg, Normalised_Vneg.
  repeat match goal with |- context [Rlt_dec ?x ?y] => destruct (Rlt_dec x y) end;
    try (exfalso; lra); cbn [fst snd AddContactPoint point penetration normal].
  - split; [reflexivity|]. intros _. split; [lra|reflexivity].
  - split; [reflexivity|]. intros H. discriminate H.
Qed.

Lemma minimum_swapped (d0 d1 d2 d3 d4 d5 : R) :
  minimum [d1; d0; d3; d2; d5; d4] = minimum [d0; d1; d2; d3; d4; d5].
Proof.
  apply Rle_antisym; apply minimum_le;
    match goal with |- In (minimum ?l) _ =>
      assert (H : In (minimum l) l) by (apply minimum_In; discriminate);
      cbn [In] in H |- * end; tauto.
Qed.

Lemma face_distances_swapped bA tA bB tB :
  exists d0 d1 d2 d3 d4 d5,
    face_distances bA tA bB tB = [d0; d1; d2; d3; d4; d5]
    /\ face_distances bB tB bA tA = [d1; d0; d3; d2; d5; d4].
Proof. unfold face_distances. cbv zeta. do 6 eexists. split; reflexivity. Qed.

Lemma AABBTest_swapped posA posB sizeA sizeB :
  AABBTest posB posA sizeB sizeA = AABBTest posA posB sizeA sizeB.
Proof.
  apply eq_true_iff_eq. rewrite !AABBTest_real.
  rewrite <- (Rabs_Ropp (vx posB - vx posA)), <- (Rabs_Ropp (vy posB - vy posA)),
    <- (Rabs_Ropp (vz posB - vz posA)).
  replace (- (vx posB - vx posA)) with (vx posA - vx posB) by ring.
  replace (- (vy posB - vy posA)) with (vy posA - vy posB) by ring.
  replace (- (vz posB - vz posA)) with (vz posA - vz posB) by ring.
  rewrite (Rplus_comm (vx sizeB)), (Rplus_comm (vy sizeB)), (Rplus_comm (vz sizeB)).
  tauto.
Qed.

Lemma faces_opposite (i i' : nat) (f f' : Vector3) :
  nth_error faces i = Some f -> nth_error faces i' = Some f' ->
  (i = 0 /\ i' = 1 \/ i = 1 /\ i' = 0 \/ i = 2 /\ i' = 3 \/ i = 3 /\ i' = 2
   \/ i = 4 /\ i' = 5 \/ i = 5 /\ i' = 4)%nat ->
  f' = [-] f.
Proof.
  intros Hf Hf' Hi.
  destruct Hi as [[-> ->] | [[-> ->] | [[-> ->] | [[-> ->] | [[-> ->] | [-> ->]]]]]];
    cbn in Hf, Hf'; injection Hf as <-; injection Hf' as <-;
    unfold f0, f1; vector_eq; lra.
Qed.

(** The two face distances of an axis are equal exactly when the two
    centres have the same coordinate on that axis. *)
Lemma face_distances_tie bA tA bB tB (k : nat) :
  (k < 3)%nat ->
  let distances := face_distances bA tA bB tB in
  nth (2 * k) distances 0 = nth (2 * k + 1) distances 0
  <-> coordinate k (GetPosition tA [+] AABB_GetOffset bA)
      = coordinate k (GetPosition tB [+] AABB_GetOffset bB).
Proof.
  intros Hk. unfold face_distances. cbv zeta.
  destruct k as [|[|[|k]]]; [| | |lia];
    cbn [Nat.mul Nat.add nth coordinate Vadd Vsub vx vy vz]; real; split; intros H; lra.
Qed.

Lemma faces_same_axis (i : nat) (f : Vector3) :
  nth_error faces i = Some f ->
  f = nth (2 * (i / 2)) faces Vzero \/ f = nth (2 * (i / 2) + 1) faces Vzero.
Proof.
  intros H. do 6 (destruct i as [|i]; [cbn in H; injection H as <-; cbn; auto|]).
  destruct i; discriminate H.
Qed.

(** The loop keeps the first face with the least distance.  With the boxes
    exchanged the two distances of every axis change places, so the other
    call finds the opposite face, unless both faces of the axis of least
    penetration are at the least distance: then both calls keep the first
    face of that axis. *)
Lemma AABBIntersection_exchanged bA tA bB tB ci ci' :
  let r1 := AABBIntersection bA tA bB tB ci in
  let r2 := AABBIntersection bB tB bA tA ci' in
  let distances := face_distances bA tA bB tB in
  fst r1 = fst r2
  /\ (fst r1 = true -> minimum distances < RF.max_float ->
      penetration (point (snd r1)) = penetration (point (snd r2))
      /\ exists k : nat,
          (k < 3)%nat
          /\ (normal (point (snd r1)) = nth (2 * k) faces Vzero
              \/ normal (point (snd r1)) = nth (2 * k + 1) faces Vzero)
          /\ (nth (2 * k) distances 0 <> nth (2 * k + 1) distances 0 ->
              normal (point (snd r2)) = [-] normal (point (snd r1)))
          /\ (nth (2 * k) distances 0 = nth (2 * k + 1) distances 0 ->
              normal (point (snd r2)) = normal (point (snd r1)))).
Proof.
  intros r1 r2 distances.
  assert (Hfst : fst r1 = fst r2).
  { unfold r1, r2. rewrite !AABBIntersection_overlap. symmetry. apply AABBTest_swapped. }
  split; [exact Hfst|]. intros H1 Hm.
  assert (H2 : fst r2 = true) by congruence.
  destruct (face_distances_swapped bA tA bB tB)
    as (d0 & d1 & d2 & d3 & d4 & d5 & E & E'). real.
  destruct (AABBIntersection_contact bA tA bB tB ci H1 Hm)
    as (i & f & Hi & Hf & Hfirst & Hr1).
  assert (Hm' : minimum (face_distances bB tB bA tA) < RF.max_float).
  { rewrite E', minimum_swapped, <- E. exact Hm. }
  destruct (AABBIntersection_contact bB tB bA tA ci' H2 Hm')
    as (i' & f' & Hi' & Hf' & Hfirst' & Hr2).
  real. fold r1 in Hr1. fold r2 in Hr2. rewrite Hr1, Hr2.
  cbn [AddContactPoint point penetration normal].
  unfold distances. rewrite E' in *. rewrite minimum_swapped in *. rewrite E in *.
  split; [reflexivity|].
  set (m := minimum [d0; d1; d2; d3; d4; d5]) in *.
  assert (B : (i < length [d0; d1; d2; d3; d4; d5])%nat)
    by (apply nth_error_Some; rewrite Hi; discriminate).
  assert (B' : (i' < length [d1; d0; d3; d2; d5; d4])%nat)
    by (apply nth_error_Some; rewrite Hi'; discriminate).
  cbn [length] in B, B'.
  assert (L : forall j d, (j < i)%nat -> nth_error [d0; d1; d2; d3; d4; d5] j = Some d
                          -> m <> d) by (intros j d Hj Hd; specialize (Hfirst j d Hj Hd); lra).
  assert (L' : forall j d, (j < i')%nat -> nth_error [d1; d0; d3; d2; d5; d4] j = Some d
                           -> m <> d) by (intros j d Hj Hd; specialize (Hfirst' j d Hj Hd); lra).
  exists (i / 2)%nat.
  split; [apply Nat.Div0.div_lt_upper_bound; lia|].
  split; [exact (@faces_same_axis i f Hf)|].
  assert (Ci : (i = 0 \/ i = 1 \/ i = 2 \/ i = 3 \/ i = 4 \/ i = 5)%nat) by lia.
  assert (Ci' : (i' = 0 \/ i' = 1 \/ i' = 2 \/ i' = 3 \/ i' = 4 \/ i' = 5)%nat) by lia.
  clear Hfirst Hfirst' Hr1 Hr2 B B'. clearbody m.
  assert (L0 := fun H => L 0%nat _ H eq_refl). assert (L1 := fun H => L 1%nat _ H eq_refl).
  assert (L2 := fun H => L 2%nat _ H eq_refl). assert (L3 := fun H => L 3%nat _ H eq_refl).
  assert (L4 := fun H => L 4%nat _ H eq_refl).
  assert (L0' := fun H => L' 0%nat _ H eq_refl). assert (L1' := fun H => L' 1%nat _ H eq_refl).
  assert (L2' := fun H => L' 2%nat _ H eq_refl). assert (L3' := fun H => L' 3%nat _ H eq_refl).
  assert (L4' := fun H => L' 4%nat _ H eq_refl).
  clear L L'.
  destruct Ci as [-> | [-> | [-> | [-> | [-> | ->]]]]];
    destruct Ci' as [-> | [-> | [-> | [-> | [-> | ->]]]]];
    cbn in Hi, Hi', Hf, Hf'; injection Hi as Em; injection Hi' as Em';
    injection Hf as <-; injection Hf' as <-;
    cbn [Nat.div Nat.divmod fst Nat.mul Nat.add nth];
    repeat match goal with
           | H : (?a < ?b)%nat -> _ |- _ =>
               first [ specialize (H ltac:(lia)) | clear H ]
           end;
    (split; intros Hd;
     first [ exfalso; congruence
           | reflexivity
           | unfold f0, f1; vector_eq; lra ]).
Qed.

(** ** Penetration and normal of a reported contact *)

Lemma SphereIntersection_contact sA tA sB tB ci :
  let r := SphereIntersection sA tA sB tB ci in
  let delta := (GetPosition tB [+] Sphere_GetOffset sB)
               [-] (GetPosition tA [+] Sphere_GetOffset sA) in
  fst r = true ->
  0 < penetration (point (snd r))
  /\ (Length delta <> 0 -> Length (normal (point (snd r))) = 1).
Proof.
  cbv zeta. rewrite SphereIntersection_real. cbv zeta.
  match goal with |- context [Rlt_dec ?x ?y] => destruct (Rlt_dec x y) as [H|H] end;
    cbn [fst snd AddContactPoint point penetration normal]; [|discriminate].
  intros _. split; [exact H|]. apply Normalised_unit.
Qed.

Lemma AABBSphereIntersection_contact bA tA sB tB ci useBoxPoint :
  let r := AABBSphereIntersection bA tA sB tB ci useBoxPoint in
  let delta := (GetPosition tB [+] Sphere_GetOffset sB)
               [-] (GetPosition tA [+] AABB_GetOffset bA) in
  let residual := delta [-] ClampV delta ([-] AABB_GetHalfDimensions bA)
                                   (AABB_GetHalfDimensions bA) in
  fst r = true ->
  0 < penetration (point (snd r))
  /\ (Length residual <> 0 -> Length (normal (point (snd r))) = 1).
Proof.
  cbv zeta. unfold AABBSphereIntersection. cbv zeta. real.
  match goal with |- context [RF.ltb ?x ?y] => destruct (RF.ltb x y) eqn:H end;
    cbn [fst snd AddContactPoint point penetration normal]; [|discriminate].
  apply ltb_iff in H. intros _. split; [lra|]. apply Normalised_unit.
Qed.

Lemma faces_unit (i : nat) (f : Vector3) : nth_error faces i = Some f -> Length f = 1.
Proof.
  intros H. do 6 (destruct i as [|i]; [cbn in H; injection H as <-;
    unfold Length, f0, f1; cbn [vx vy vz]; real;
    match goal with |- sqrt ?x = 1 => replace x with 1 by lra end; apply sqrt_1|]).
  destruct i; discriminate H.
Qed.

Lemma face_distances_positive bA tA bB tB (d : R) :
  AABBTest (GetPosition tA [+] AABB_GetOffset bA) (GetPosition tB [+] AABB_GetOffset bB)
           (AABB_GetHalfDimensions bA) (AABB_GetHalfDimensions bB) = true ->
  In d (face_distances bA tA bB tB) -> 0 < d.
Proof.
  intros Hov Hin. apply AABBTest_real in Hov. destruct Hov as (Hx & Hy & Hz).
  apply Rabs_def2 in Hx, Hy, Hz.
  unfold face_distances in Hin. cbv zeta in Hin. cbn [In Vadd Vsub vx vy vz] in Hin, Hx, Hy, Hz.
  real. intuition (subst d; lra).
Qed.

Lemma AABBIntersection_unit_contact bA tA bB tB ci :
  let r := AABBIntersection bA tA bB tB ci in
  fst r = true -> minimum (face_distances bA tA bB tB) < RF.max_float ->
  0 < penetration (point (snd r)) /\ Length (normal (point (snd r))) = 1.
Proof.
  intros r Hhit Hm.
  destruct (AABBIntersection_contact bA tA bB tB ci Hhit Hm)
    as (i & f & Hi & Hf & _ & Hr).
  fold r in Hr. rewrite Hr. cbn [AddContactPoint point penetration normal].
  split; [|exact (@faces_unit i f Hf)].
  unfold r in Hhit. rewrite AABBIntersection_overlap in Hhit.
  apply (@face_distances_positive bA tA bB tB _ Hhit). eapply nth_error_In, Hi.
Qed.

Lemma OBB_invariant_keeps_state directions st i :
  OBB_invariant directions st ->
  OBB_invariant directions (mkOBBLoop (leastPenetration st) i (info st)).
Proof. intros H; exact H. Qed.

Lemma OBB_axis_invariant tA tB directions i d st :
  In d directions -> OBB_invariant directions st ->
  OBB_invariant directions (snd (OBB_axis tA tB i d st)).
Proof.
  intros Hin Hinv.
  assert (Hmax : leastPenetration st <= RF.max_float).
  { destruct Hinv as [->|[[_ H] _]]; real; lra. }
  unfold OBB_axis. cbv zeta. real.
  destruct (RF.ltb (Dot d d) (@lit RealFloat 99 100)) eqn:Hvalid; [exact Hinv|].
  assert (Hd : 99 / 100 <= Dot d d).
  { destruct (Rle_dec (99 / 100) (Dot d d)) as [H|H]; [exact H|].
    exfalso. rewrite ltb_true in Hvalid; [discriminate|].
    unfold lit. real. lra. }
  repeat match goal with
         | |- context [if RF.ltb ?x ?y then _ else _] => destruct (RF.ltb x y) eqn:?
         | |- context [if RF.leb ?x ?y then _ else _] => destruct (RF.leb x y) eqn:?
         | |- context [if andb ?x ?y then _ else _] => destruct (andb x y) eqn:?
         end;
    cbn [snd]; try exact Hinv;
    right; split;
    cbn [leastPenetration info set_normal set_localA set_localB point normal];
    repeat match goal with
           | H : RF.ltb _ _ = true |- _ => apply ltb_iff in H
           | H : RF.leb _ _ = true |- _ => apply leb_iff in H
           end;
    first [ real; lra | exists d; auto ].
Qed.

Lemma OBB_loop_invariant tA tB all directions : forall i st,
  incl directions all -> OBB_invariant all st ->
  OBB_invariant all (snd (OBB_loop tA tB directions i st)).
Proof.
  induction directions as [|d rest IH]; intros i st Hincl Hinv; [exact Hinv|].
  cbn [OBB_loop].
  assert (Hstep := @OBB_axis_invariant tA tB all i d st
                     (Hincl d (or_introl eq_refl)) Hinv).
  destruct (OBB_axis tA tB i d st) as [[|] st']; cbn [snd] in *.
  - apply IH; [|exact Hstep]. intros x Hx. apply Hincl. right. exact Hx.
  - exact Hstep.
Qed.

Lemma OBBIntersection_contact vA tA vB tB ci :
  let r := OBBIntersection vA tA vB tB ci in
  fst r = true -> penetration (point (snd r)) <> RF.max_float ->
  0 <= penetration (point (snd r))
  /\ exists d : Vector3,
      In d (OBB_directions tA tB) /\ 99 / 100 <= Dot d d
      /\ (normal (point (snd r)) = d \/ normal (point (snd r)) = [-] d).
Proof.
  cbv zeta. unfold OBBIntersection. cbv zeta.
  assert (Hinv := @OBB_loop_invariant tA tB (OBB_directions tA tB) (OBB_directions tA tB)
                    0%Z (mkOBBLoop FLT_MAX (-1) ci) (incl_refl _) (or_introl eq_refl)).
  destruct (OBB_loop tA tB (OBB_directions tA tB) 0 (mkOBBLoop FLT_MAX (-1) ci))
    as [[|] st]; cbn [fst snd] in *; [|discriminate].
  cbn [set_penetration set_localA set_localB point penetration normal].
  intros _ Hne. destruct Hinv as [E|[[H0 _] Hd]]; [contradiction|].
  split; [exact H0|exact Hd].
Qed.

(** C1, as the code has it: exchanging the two bodies gives the mirrored
    result (same outcome, same penetration, negated normal) for two
    spheres.  For two boxes the outcome and the penetration are the same,
    and the normal is negated unless the two centres have the same
    coordinate on the axis of least penetration (the two face distances of
    that axis are equal): then both calls report the same face.  For the
    mixed pairs that the dispatcher puts in canonical order, both argument
    orders run the same routine on the same arguments: the two results are
    equal, body references and normal included. *)
Theorem C1_exchanging_the_bodies (tA tB : Transform) (idA idB : Z) (ci : CollisionInfo) :
  (forall sA sB : SphereVolume,
      mirrored
        (ObjectIntersection (object (VolSphere sA) tA idA) (object (VolSphere sB) tB idB) ci)
        (ObjectIntersection (object (VolSphere sB) tB idB) (object (VolSphere sA) tA idA) ci))
  /\ (forall bA bB : AABBVolume,
        let r1 := ObjectIntersection (object (VolAABB bA) tA idA)
                    (object (VolAABB bB) tB idB) ci in
        let r2 := ObjectIntersection (object (VolAABB bB) tB idB)
                    (object (VolAABB bA) tA idA) ci in
        let distances := face_distances bA tA bB tB in
        fst r1 = fst r2
        /\ (fst r1 = true -> minimum distances < RF.max_float ->
            penetration (point (snd r1)) = penetration (point (snd r2))
            /\ exists k : nat,
                (k < 3)%nat
                /\ (normal (point (snd r1)) = nth (2 * k) faces Vzero
                    \/ normal (point (snd r1)) = nth (2 * k + 1) faces Vzero)
                /\ (nth (2 * k) distances 0 <> nth (2 * k + 1) distances 0 ->
                    normal (point (snd r2)) = [-] normal (point (snd r1)))
                /\ (nth (2 * k) distances 0 = nth (2 * k + 1) distances 0 ->
                    normal (point (snd r2)) = normal (point (snd r1))))
        /\ (forall k : nat, (k < 3)%nat ->
            nth (2 * k) distances 0 = nth (2 * k + 1) distances 0
            <-> coordinate k (GetPosition tA [+] AABB_GetOffset bA)
                = coordinate k (GetPosition tB [+] AABB_GetOffset bB)))
  /\ (forall volA volB : CollisionVolume,
        swaps (type volA) (type volB) = true ->
        ObjectIntersection (object volA tA idA) (object volB tB idB) ci
        = ObjectIntersection (object volB tB idB) (object volA tA idA) ci).
Proof.
  split; [|split].
  - intros sA sB. apply SphereIntersection_mirrored.
  - intros bA bB r1 r2 distances.
    destruct (AABBIntersection_exchanged bA tA bB tB
                (set_b (set_a ci (object (VolAABB bA) tA idA)) (object (VolAABB bB) tB idB))
                (set_b (set_a ci (object (VolAABB bB) tB idB)) (object (VolAABB bA) tA idA)))
      as [Hfst Hrest].
    split; [exact Hfst|]. split; [exact Hrest|].
    intros k Hk. apply face_distances_tie. exact Hk.
  - intros volA volB. apply ObjectIntersection_swapped.
Qed.

(** *** Every kind pair *)

Lemma Normalised_length (v : Vector3) :
  Length (Normalised v) <> 0 -> Length (Normalised v) = 1.
Proof.
  destruct (Req_dec_T (Length v) 0) as [H|H].
  - rewrite (@Normalised_zero v H). intros H'. contradiction.
  - intros _. apply Normalised_unit. exact H.
Qed.

(** The matrix of a unit quaternion keeps lengths. *)
Lemma Length_rotated (q : Quaternion) (v : Vector3) :
  Qnorm2 q = 1 -> Length (M3mulV (Matrix3_of_Quaternion q) v) = Length v.
Proof.
  unfold Qnorm2. real. intros Hq. unfold Length. real. f_equal.
  destruct q as [x y z w], v as [a b c].
  cbn [M3mulV Matrix3_of_Quaternion qx qy qz qw vx vy vz m0 m1 m2 m3 m4 m5 m6 m7 m8] in *.
  unfold two, f1. real.
  assert (Hw : w * w = 1 - x * x - y * y - z * z) by lra. clear Hq.
  set (lhs := _ + _ + _).
  assert (E : lhs - (a * a + b * b + c * c)
              = (w * w - (1 - x * x - y * y - z * z))
                * (4 * (a * a * (y * y + z * z) + b * b * (x * x + z * z)
                        + c * c * (x * x + y * y)
                        - 2 * a * b * x * y - 2 * a * c * x * z - 2 * b * c * y * z)))
    by (unfold lhs; ring).
  rewrite Hw in E. lra.
Qed.

Lemma SphereIntersection_normal sA tA sB tB ci :
  let r := SphereIntersection sA tA sB tB ci in
  fst r = true ->
  0 < penetration (point (snd r))
  /\ (Length (normal (point (snd r))) <> 0 -> Length (normal (point (snd r))) = 1).
Proof.
  cbv zeta. rewrite SphereIntersection_real. cbv zeta.
  match goal with |- context [Rlt_dec ?x ?y] => destruct (Rlt_dec x y) as [H|H] end;
    cbn [fst snd AddContactPoint point penetration normal]; [|discriminate].
  intros _. split; [exact H|]. apply Normalised_length.
Qed.

Lemma AABBSphereIntersection_normal bA tA sB tB ci useBoxPoint :
  let r := AABBSphereIntersection bA tA sB tB ci useBoxPoint in
  fst r = true ->
  0 < penetration (point (snd r))
  /\ (Length (normal (point (snd r))) <> 0 -> Length (normal (point (snd r))) = 1).
Proof.
  cbv zeta. unfold AABBSphereIntersection. cbv zeta. real.
  match goal with |- context [RF.ltb ?x ?y] => destruct (RF.ltb x y) eqn:H end;
    cbn [fst snd AddContactPoint point penetration normal]; [|discriminate].
  apply ltb_iff in H. intros _. split; [lra|]. apply Normalised_length.
Qed.

(** A routine built on one of the two sphere tests: what that test says
    about a reported contact, carried through the writes that follow. *)
Ltac reduced_contact :=
  cbv zeta;
  match goal with
  | |- context [SphereIntersection ?a ?b ?c ?d ?ci] =>
      assert (H := SphereIntersection_normal a b c d ci); cbv zeta in H;
      destruct (SphereIntersection a b c d ci) as [[|] ci']
  | |- context [AABBSphereIntersection ?a ?b ?c ?d ?ci ?e] =>
      assert (H := AABBSphereIntersection_normal a b c d ci e); cbv zeta in H;
      destruct (AABBSphereIntersection a b c d ci e) as [[|] ci']
  end;
  cbn [fst snd set_localA set_localB set_normal point penetration normal] in *;
  [|discriminate].

Lemma CapsuleIntersection_normal cA tA cB tB ci :
  let r := CapsuleIntersection cA tA cB tB ci in
  fst r = true ->
  0 < penetration (point (snd r))
  /\ (Length (normal (point (snd r))) <> 0 -> Length (normal (point (snd r))) = 1).
Proof. unfold CapsuleIntersection. reduced_contact. exact H. Qed.

Lemma SphereCapsuleIntersection_normal cA tA sB tB ci :
  let r := SphereCapsuleIntersection cA tA sB tB ci in
  fst r = true ->
  0 < penetration (point (snd r))
  /\ (Length (normal (point (snd r))) <> 0 -> Length (normal (point (snd r))) = 1).
Proof. unfold SphereCapsuleIntersection. reduced_contact. exact H. Qed.

Lemma AABBCapsuleIntersection_normal cA tA bB tB ci :
  let r := AABBCapsuleIntersection cA tA bB tB ci in
  fst r = true ->
  0 < penetration (point (snd r))
  /\ (Length (normal (point (snd r))) <> 0 -> Length (normal (point (snd r))) = 1).
Proof.
  unfold AABBCapsuleIntersection. reduced_contact.
  rewrite Length_Vneg. exact H.
Qed.

Lemma SphereOBBIntersection_normal sA tA oB tB ci :
  let r := SphereOBBIntersection sA tA oB tB ci in
  fst r = true ->
  0 < penetration (point (snd r))
  /\ (Qnorm2 (GetOrientation tB) = 1 ->
      Length (normal (point (snd r))) <> 0 -> Length (normal (point (snd r))) = 1).
Proof.
  unfold SphereOBBIntersection. reduced_contact.
  intros _. split; [apply H; reflexivity|]. intros Hq.
  rewrite (@Length_rotated _ _ Hq), Length_Vneg. apply H. reflexivity.
Qed.

Lemma CapsuleOBBIntersection_normal cA tA oB tB ci :
  let r := CapsuleOBBIntersection cA tA oB tB ci in
  fst r = true ->
  0 < penetration (point (snd r))
  /\ (Qnorm2 (GetOrientation tB) = 1 ->
      Length (normal (point (snd r))) <> 0 -> Length (normal (point (snd r))) = 1).
Proof.
  unfold CapsuleOBBIntersection. cbv zeta.
  match goal with
  | |- context [SphereOBBIntersection ?a ?b ?c ?d ?ci] =>
      assert (H := SphereOBBIntersection_normal a b c d ci); cbv zeta in H;
      destruct (SphereOBBIntersection a b c d ci) as [[|] ci']
  end;
    cbn [fst snd set_localA set_localB set_normal point penetration normal] in *;
    [exact H|discriminate].
Qed.

Lemma AABBIntersection_penetration_positive bA tA bB tB ci :
  let r := AABBIntersection bA tA bB tB ci in
  fst r = true -> 0 < penetration (point (snd r)).
Proof.
  intros r Hhit. unfold r in Hhit. rewrite AABBIntersection_overlap in Hhit.
  assert (Hpos := @face_distances_positive bA tA bB tB).
  unfold r, AABBIntersection. cbv zeta. rewrite Hhit.
  match goal with |- context [bestFace ?l ?s] =>
    destruct (bestFace_spec l (fst s) (snd s)) as (_ & _ & Hcase);
    cbv zeta in Hcase; cbn [fst snd] in Hcase;
    change (fst s, snd s) with s in Hcase;
    set (l' := l) in *; destruct (bestFace l' s) as [p f] eqn:E end.
  cbn [fst snd AddContactPoint point penetration].
  destruct Hcase as [[E' _]|(i & Hi & _)].
  - injection E' as -> _. real. unfold RF.max_float. lra.
  - apply nth_error_In in Hi. apply (Hpos p Hhit).
    unfold face_distances. cbv zeta. subst l'. cbn [combine In] in Hi |- *.
    repeat (destruct Hi as [Hi|Hi]; [injection Hi as <- _; auto 8|]). destruct Hi.
Qed.

Lemma OBBIntersection_penetration_nonneg vA tA vB tB ci :
  let r := OBBIntersection vA tA vB tB ci in
  fst r = true -> 0 <= penetration (point (snd r)).
Proof.
  cbv zeta. unfold OBBIntersection. cbv zeta.
  assert (Hinv := @OBB_loop_invariant tA tB (OBB_directions tA tB) (OBB_directions tA tB)
                    0%Z (mkOBBLoop FLT_MAX (-1) ci) (incl_refl _) (or_introl eq_refl)).
  destruct (OBB_loop tA tB (OBB_directions tA tB) 0 (mkOBBLoop FLT_MAX (-1) ci))
    as [[|] st]; cbn [fst snd] in *; [|discriminate].
  cbn [set_penetration set_localA set_localB point penetration normal].
  intros _. destruct Hinv as [E|[[H0 _] _]]; [|exact H0].
  rewrite E. unfold RF.max_float. lra.
Qed.

Lemma ObjectIntersection_penetration_nonneg (volA volB : CollisionVolume)
  (tA tB : Transform) (idA idB : Z) (ci : CollisionInfo) :
  let r := ObjectIntersection (object volA tA idA) (object volB tB idB) ci in
  fst r = true -> 0 <= penetration (point (snd r)).
Proof.
  cbv zeta. rewrite ObjectIntersection_dispatch. unfold ObjectIntersection_table. cbv zeta.
  destruct volA, volB; intros H; cbn [GetTransform object] in *;
    lazymatch goal with
    | |- _ <= penetration (point (snd (AABBIntersection _ _ _ _ _))) =>
        apply Rlt_le; exact (AABBIntersection_penetration_positive _ _ _ _ _ H)
    | |- _ <= penetration (point (snd (SphereIntersection _ _ _ _ _))) =>
        apply Rlt_le; exact (proj1 (SphereIntersection_normal _ _ _ _ _ H))
    | |- _ <= penetration (point (snd (AABBSphereIntersection _ _ _ _ _ _))) =>
        apply Rlt_le; exact (proj1 (AABBSphereIntersection_normal _ _ _ _ _ _ H))
    | |- _ <= penetration (point (snd (OBBIntersection _ _ _ _ _))) =>
        exact (OBBIntersection_penetration_nonneg _ _ _ _ _ H)
    | |- _ <= penetration (point (snd (CapsuleIntersection _ _ _ _ _))) =>
        apply Rlt_le; exact (proj1 (CapsuleIntersection_normal _ _ _ _ _ H))
    | |- _ <= penetration (point (snd (SphereCapsuleIntersection _ _ _ _ _))) =>
        apply Rlt_le; exact (proj1 (SphereCapsuleIntersection_normal _ _ _ _ _ H))
    | |- _ <= penetration (point (snd (AABBCapsuleIntersection _ _ _ _ _))) =>
        apply Rlt_le; exact (proj1 (AABBCapsuleIntersection_normal _ _ _ _ _ H))
    | |- _ <= penetration (point (snd (SphereOBBIntersection _ _ _ _ _))) =>
        apply Rlt_le; exact (proj1 (SphereOBBIntersection_normal _ _ _ _ _ H))
    | |- _ <= penetration (point (snd (CapsuleOBBIntersection _ _ _ _ _))) =>
        apply Rlt_le; exact (proj1 (CapsuleOBBIntersection_normal _ _ _ _ _ H))
    end.
Qed.

(** C2, as the code has it: whatever the two kinds of volume, a collision
    reported by [ObjectIntersection] has a non-negative penetration.  A
    collision reported by the sphere-sphere, the box-sphere or the box-box
    test has a positive penetration; its normal has length 1 for two
    spheres with distinct centres, for a sphere whose centre lies outside
    the box, and for two boxes.  A collision reported by the
    separating-axis test whose penetration is not the initial FLT_MAX has
    a normal that is one of the fifteen candidate axes or its opposite,
    not normalised, of squared length at least 0.99.  A collision reported
    by one of the five routines built on the sphere tests has a positive
    penetration, and its normal, where it is not of length 0, has length 1
    (for the two that work in the frame of an oriented box: when the
    orientation of the box is a unit quaternion). *)
Theorem C2_penetration_and_normal (tA tB : Transform) (ci : CollisionInfo) :
  (forall (volA volB : CollisionVolume) (idA idB : Z),
      let r := ObjectIntersection (object volA tA idA) (object volB tB idB) ci in
      fst r = true -> 0 <= penetration (point (snd r)))
  /\ (forall sA sB : SphereVolume,
      let r := SphereIntersection sA tA sB tB ci in
      let delta := (GetPosition tB [+] Sphere_GetOffset sB)
                   [-] (GetPosition tA [+] Sphere_GetOffset sA) in
      fst r = true ->
      0 < penetration (point (snd r))
      /\ (Length delta <> 0 -> Length (normal (point (snd r))) = 1))
  /\ (forall (bA : AABBVolume) (sB : SphereVolume) (useBoxPoint : bool),
        let r := AABBSphereIntersection bA tA sB tB ci useBoxPoint in
        let delta := (GetPosition tB [+] Sphere_GetOffset sB)
                     [-] (GetPosition tA [+] AABB_GetOffset bA) in
        let residual := delta [-] ClampV delta ([-] AABB_GetHalfDimensions bA)
                                         (AABB_GetHalfDimensions bA) in
        fst r = true ->
        0 < penetration (point (snd r))
        /\ (Length residual <> 0 -> Length (normal (point (snd r))) = 1))
  /\ (forall bA bB : AABBVolume,
        let r := AABBIntersection bA tA bB tB ci in
        fst r = true -> minimum (face_distances bA tA bB tB) < RF.max_float ->
        0 < penetration (point (snd r)) /\ Length (normal (point (snd r))) = 1)
  /\ (forall vA vB : OBBVolume,
        let r := OBBIntersection vA tA vB tB ci in
        fst r = true -> penetration (point (snd r)) <> RF.max_float ->
        0 <= penetration (point (snd r))
        /\ exists d : Vector3,
            In d (OBB_directions tA tB) /\ 99 / 100 <= Dot d d
            /\ (normal (point (snd r)) = d \/ normal (point (snd r)) = [-] d))
  /\ (forall cA cB : CapsuleVolume,
        let r := CapsuleIntersection cA tA cB tB ci in
        fst r = true ->
        0 < penetration (point (snd r))
        /\ (Length (normal (point (snd r))) <> 0 -> Length (normal (point (snd r))) = 1))
  /\ (forall (cA : CapsuleVolume) (sB : SphereVolume),
        let r := SphereCapsuleIntersection cA tA sB tB ci in
        fst r = true ->
        0 < penetration (point (snd r))
        /\ (Length (normal (point (snd r))) <> 0 -> Length (normal (point (snd r))) = 1))
  /\ (forall (cA : CapsuleVolume) (bB : AABBVolume),
        let r := AABBCapsuleIntersection cA tA bB tB ci in
        fst r = true ->
        0 < penetration (point (snd r))
        /\ (Length (normal (point (snd r))) <> 0 -> Length (normal (point (snd r))) = 1))
  /\ (forall (sA : SphereVolume) (oB : OBBVolume),
        let r := SphereOBBIntersection sA tA oB tB ci in
        fst r = true ->
        0 < penetration (point (snd r))
        /\ (Qnorm2 (GetOrientation tB) = 1 ->
            Length (normal (point (snd r))) <> 0 -> Length (normal (point (snd r))) = 1))
  /\ (forall (cA : CapsuleVolume) (oB : OBBVolume),
        let r := CapsuleOBBIntersection cA tA oB tB ci in
        fst r = true ->
        0 < penetration (point (snd r))
        /\ (Qnorm2 (GetOrientation tB) = 1 ->
            Length (normal (point (snd r))) <> 0 -> Length (normal (point (snd r))) = 1)).
Proof.
  split; [intros volA volB idA idB; apply ObjectIntersection_penetration_nonneg|].
  split; [intros sA sB; apply SphereIntersection_contact|].
  split; [intros bA sB useBoxPoint; apply AABBSphereIntersection_contact|].
  split; [intros bA bB; apply AABBIntersection_unit_contact|].
  split; [intros vA vB; apply OBBIntersection_contact|].
  split; [intros cA cB; apply CapsuleIntersection_normal|].
  split; [intros cA sB; apply SphereCapsuleIntersection_normal|].
  split; [intros cA bB; apply AABBCapsuleIntersection_normal|].
  split; [intros sA oB; apply SphereOBBIntersection_normal|].
  intros cA oB. apply CapsuleOBBIntersection_normal.
Qed.

(** ** Further properties: rays *)

(** The ray-plane test fails, leaving the hit record alone, exactly when the
    ray direction is perpendicular to the plane normal.  Otherwise it
    succeeds, the reported point lies on the plane, and [rayDistance] is
    not written. *)
Theorem RayPlaneIntersection_point_on_plane (r : Ray) (p : Plane)
  (collisions : RayCollision) :
  let res := RayPlaneIntersection r p collisions in
  if Req_dec_T (Dot (Plane_GetNormal p) (Ray_GetDirection r)) 0
  then res = (false, collisions)
  else fst res = true
       /\ Dot (collidedAt (snd res) [-] GetPointOnPlane p) (Plane_GetNormal p) = 0
       /\ rayDistance (snd res) = rayDistance collisions.
Proof.
  cbv zeta. unfold RayPlaneIntersection. cbv zeta. real. unfold f0. real.
  destruct (Req_dec_T (Dot (Plane_GetNormal p) (Ray_GetDirection r)) 0) as [E|N].
  - rewrite eqb_true by exact E. reflexivity.
  - rewrite eqb_false by exact N. cbn [fst snd collidedAt rayDistance].
    repeat split. unfold Dot in *. cbn [Vadd Vsub Vscale vx vy vz]. real.
    field. exact N.
Qed.

Lemma GetMaxElement_spec (v : Vector3) :
  vx v <= GetMaxElement v /\ vy v <= GetMaxElement v /\ vz v <= GetMaxElement v
  /\ (GetMaxElement v = vx v \/ GetMaxElement v = vy v \/ GetMaxElement v = vz v).
Proof.
  unfold GetMaxElement. cbv zeta. real. unfold RF.ltb.
  destruct (Rlt_dec (vx v) (vy v));
  repeat match goal with |- context [Rlt_dec ?x ?y] => destruct (Rlt_dec x y) end;
    repeat split;
    first [ lra | left; reflexivity | right; left; reflexivity
          | right; right; reflexivity ].
Qed.

Lemma outside_false (x lo hi : R) :
  outside x lo hi = false -> lo - 1 / 10000 <= x <= hi + 1 / 10000.
Proof.
  unfold outside. cbv zeta. unfold lit. real. unfold RF.ltb. intros H.
  apply orb_false_elim in H. destruct H as [H1 H2].
  destruct (Rlt_dec (x + 1 / 10000) lo); [discriminate|].
  destruct (Rlt_dec hi (x - 1 / 10000)); [discriminate|]. lra.
Qed.

(** When the ray-box test reports a hit, the distance is not negative, the
    reported point is the ray's point at that distance, and on every axis
    it lies within the box widened by the tolerance 0.0001.  When it
    reports none, the hit record is as before. *)
Theorem RayBoxIntersection_hit_in_box (r : Ray) (boxPos boxSize : Vector3)
  (collision : RayCollision) :
  let res := RayBoxIntersection r boxPos boxSize collision in
  let hit := collidedAt (snd res) in
  let lo := boxPos [-] boxSize in
  let hi := boxPos [+] boxSize in
  if fst res
  then 0 <= rayDistance (snd res)
       /\ hit = Ray_GetPosition r [+] Ray_GetDirection r [*] rayDistance (snd res)
       /\ vx lo - 1 / 10000 <= vx hit <= vx hi + 1 / 10000
       /\ vy lo - 1 / 10000 <= vy hit <= vy hi + 1 / 10000
       /\ vz lo - 1 / 10000 <= vz hit <= vz hi + 1 / 10000
  else snd res = collision.
Proof.
  cbv zeta. unfold RayBoxIntersection. cbv zeta.
  match goal with |- context [GetMaxElement ?v] => set (bestT := GetMaxElement v) end.
  real. unfold f0. real.
  destruct (RF.ltb bestT 0) eqn:Hneg; cbn [fst snd]; [reflexivity|].
  repeat match goal with
         | |- context [if outside ?x ?y ?z then _ else _] => destruct (outside x y z) eqn:?
         end; cbn [fst snd collidedAt rayDistance]; try reflexivity.
  repeat match goal with H : outside _ _ _ = false |- _ => apply outside_false in H end.
  assert (H0 : ~ bestT < 0) by (intros H; rewrite ltb_true in Hneg by exact H; discriminate).
  repeat split; solve [lra | tauto].
Qed.

(** A ray that starts strictly inside the box never reports a hit, whatever
    its direction: every entry parameter is negative. *)
Theorem RayBoxIntersection_from_inside (r : Ray) (boxPos boxSize : Vector3)
  (collision : RayCollision) :
  vx boxPos - vx boxSize < vx (Ray_GetPosition r) < vx boxPos + vx boxSize ->
  vy boxPos - vy boxSize < vy (Ray_GetPosition r) < vy boxPos + vy boxSize ->
  vz boxPos - vz boxSize < vz (Ray_GetPosition r) < vz boxPos + vz boxSize ->
  RayBoxIntersection r boxPos boxSize collision = (false, collision).
Proof.
  intros Hx Hy Hz. unfold RayBoxIntersection. cbv zeta.
  match goal with |- context [GetMaxElement ?v] =>
    assert (Hmax := GetMaxElement_spec v); set (bestT := GetMaxElement v) in * end.
  assert (Hneg : forall d lo hi x, lo < x < hi -> tVal d lo hi x < 0).
  { intros d lo hi x Hin. unfold tVal, f0. real. unfold RF.ltb.
    destruct (Rlt_dec 0 d) as [Hd|Hd].
    - assert (0 < / d) by (apply Rinv_0_lt_compat; exact Hd). unfold Rdiv. nra.
    - destruct (Rlt_dec d 0) as [Hd'|Hd']; [|lra].
      assert (/ d < 0) by (apply Rinv_lt_0_compat; exact Hd'). unfold Rdiv. nra. }
  cbn [vx vy vz Vadd Vsub] in *. real.
  assert (Hb : bestT < 0).
  { destruct Hmax as (_ & _ & _ & [E|[E|E]]); rewrite E; apply Hneg; assumption. }
  unfold f0. real. rewrite ltb_true by exact Hb. reflexivity.
Qed.

(** The same over concrete numbers. *)
Lemma RayBoxIntersection_from_inside_witness :
  @RayBoxIntersection RealFloat (mkRay (mkV 0 0 0) (mkV 1 0 0)) (mkV 0 0 0) (mkV 1 1 1)
    (mkRayCollision (mkV 0 0 0) 0)
  = (false, mkRayCollision (mkV 0 0 0) 0).
Proof.
  apply RayBoxIntersection_from_inside; cbn [vx vy vz Ray_GetPosition]; lra.
Defined.

(** ** Further properties: degenerate contacts *)

Lemma Rabs_le_bounds (x bound : R) : Rabs x <= bound -> - bound <= x <= bound.
Proof.
  intros H. assert (H1 := Rle_abs x). assert (H2 := Rle_abs (- x)).
  rewrite Rabs_Ropp in H2. lra.
Qed.

Lemma Clamp_inside (x lo hi : R) : lo <= x <= hi -> Clamp x lo hi = x.
Proof.
  intros H. unfold Clamp. real. unfold RF.ltb.
  destruct (Rlt_dec x lo); [lra|]. destruct (Rlt_dec hi x); [lra|]. reflexivity.
Qed.

Lemma Clamp_range (x lo hi : R) : lo <= hi -> lo <= Clamp x lo hi <= hi.
Proof.
  intros H. unfold Clamp. real. unfold RF.ltb.
  destruct (Rlt_dec x lo); [lra|]. destruct (Rlt_dec hi x); lra.
Qed.

(** A sphere of positive radius whose centre lies in the box (faces
    included) is always reported as colliding, with the full radius as
    penetration and the zero vector as normal. *)
Theorem AABBSphereIntersection_centre_inside (bA : AABBVolume) (tA : Transform)
  (sB : SphereVolume) (tB : Transform) (ci : CollisionInfo) (useBoxPoint : bool) :
  let delta := (GetPosition tB [+] Sphere_GetOffset sB)
               [-] (GetPosition tA [+] AABB_GetOffset bA) in
  let r := AABBSphereIntersection bA tA sB tB ci useBoxPoint in
  Rabs (vx delta) <= vx (AABB_GetHalfDimensions bA) ->
  Rabs (vy delta) <= vy (AABB_GetHalfDimensions bA) ->
  Rabs (vz delta) <= vz (AABB_GetHalfDimensions bA) ->
  0 < Sphere_GetRadius sB ->
  fst r = true
  /\ penetration (point (snd r)) = Sphere_GetRadius sB
  /\ normal (point (snd r)) = Vzero
  /\ Length (normal (point (snd r))) = 0.
Proof.
  intros delta r Hx Hy Hz Hr. subst r. unfold AABBSphereIntersection. cbv zeta.
  fold delta.
  assert (Hc : ClampV delta ([-] AABB_GetHalfDimensions bA) (AABB_GetHalfDimensions bA)
               = delta).
  { unfold ClampV. cbn [Vneg vx vy vz]. real.
    apply Rabs_le_bounds in Hx, Hy, Hz.
    rewrite !Clamp_inside by lra. destruct delta; reflexivity. }
  rewrite Hc.
  assert (Hz0 : delta [-] delta = Vzero) by (unfold Vzero, f0; vector_eq; lra).
  rewrite Hz0.
  assert (Hl : Length Vzero = 0) by (apply Length_zero; unfold Vzero, f0; cbn; real; auto).
  rewrite Hl. real. rewrite ltb_true by exact Hr.
  cbn [fst snd AddContactPoint point penetration normal].
  rewrite (@Normalised_zero Vzero Hl). rewrite Hl.
  repeat split. lra.
Qed.

(** The same over concrete numbers: the unit sphere at the centre of the
    unit box. *)
Lemma AABBSphereIntersection_centre_inside_witness :
  let r := @AABBSphereIntersection RealFloat (mkAABB (mkV 1 1 1) (mkV 0 0 0))
             (pose_at (mkV 0 0 0)) (mkSphere 1 (mkV 0 0 0)) (pose_at (mkV 0 0 0))
             CollisionInfo_new false in
  fst r = true
  /\ penetration (point (snd r)) = 1
  /\ normal (point (snd r)) = Vzero
  /\ Length (normal (point (snd r))) = 0.
Proof.
  apply AABBSphereIntersection_centre_inside;
    cbn; try (rewrite Rabs_right by lra); lra.
Defined.

(** Two spheres with the same centre and a positive sum of radii are
    reported as colliding with the sum of the radii as penetration, the
    zero vector as normal, and both anchors at the centre. *)
Theorem SphereIntersection_same_centre (sA sB : SphereVolume) (tA tB : Transform)
  (ci : CollisionInfo) :
  GetPosition tB [+] Sphere_GetOffset sB = GetPosition tA [+] Sphere_GetOffset sA ->
  0 < Sphere_GetRadius sA + Sphere_GetRadius sB ->
  let r := SphereIntersection sA tA sB tB ci in
  fst r = true
  /\ penetration (point (snd r)) = Sphere_GetRadius sA + Sphere_GetRadius sB
  /\ normal (point (snd r)) = Vzero
  /\ localA (point (snd r)) = Vzero /\ localB (point (snd r)) = Vzero.
Proof.
  intros Hc Hr. cbv zeta. rewrite SphereIntersection_real. cbv zeta. rewrite Hc.
  set (c := GetPosition tA [+] Sphere_GetOffset sA).
  assert (Hz0 : c [-] c = Vzero) by (unfold Vzero, f0; vector_eq; lra).
  rewrite Hz0.
  assert (Hl : Length Vzero = 0) by (apply Length_zero; unfold Vzero, f0; cbn; real; auto).
  rewrite Hl, (@Normalised_zero Vzero Hl).
  destruct (Rlt_dec 0 _) as [_|N]; [|exfalso; lra].
  cbn [fst snd AddContactPoint point penetration normal localA localB].
  repeat split; try lra; unfold Vzero, f0; vector_eq; lra.
Qed.

Lemma SphereIntersection_same_centre_witness :
  let r := @SphereIntersection RealFloat (mkSphere 1 (mkV 0 0 0)) (pose_at (mkV 2 0 0))
             (mkSphere 1 (mkV 0 0 0)) (pose_at (mkV 2 0 0)) CollisionInfo_new in
  fst r = true
  /\ penetration (point (snd r)) = 1 + 1
  /\ normal (point (snd r)) = Vzero
  /\ localA (point (snd r)) = Vzero /\ localB (point (snd r)) = Vzero.
Proof.
  apply SphereIntersection_same_centre; [reflexivity|cbn; lra].
Defined.

(** ** Further properties: boxes in the same pose *)

Lemma Dot_Vsub_self (u m : Vector3) : Dot u (m [-] m) = 0.
Proof. unfold Dot. cbn [Vsub vx vy vz]. real. ring. Qed.

Lemma OBB_axis_same_pose (t : Transform) (i : Z) (d : Vector3) (st : OBBLoop) :
  99 / 100 <= Dot d d -> OBB_axis t t i d st = (false, st).
Proof.
  intros Hd. unfold OBB_axis. cbv beta zeta. real.
  rewrite (@ltb_false (Dot d d) (@lit RealFloat 99 100)) by (unfold lit; real; lra).
  rewrite !Dot_Vsub_self. unfold f0. real.
  rewrite !(@ltb_false 0 0) by lra. cbn [andb]. reflexivity.
Qed.

(** Two oriented boxes in one and the same pose, which overlap completely,
    are reported as not colliding, and the manifold is left alone: on the
    first axis the two projections coincide, neither tie-break product is
    positive or negative, and the loop returns false.  (The first axis is
    valid whenever the orientation is a unit quaternion.) *)
Theorem OBBIntersection_same_pose (volumeA volumeB : OBBVolume) (t : Transform)
  (ci : CollisionInfo) :
  99 / 100 <= Dot (Qrot (GetOrientation t) (mkV f1 f0 f0))
                  (Qrot (GetOrientation t) (mkV f1 f0 f0)) ->
  OBBIntersection volumeA t volumeB t ci = (false, ci).
Proof.
  intros Hd. unfold OBBIntersection, OBB_directions. cbv zeta. cbn [OBB_loop].
  rewrite (OBB_axis_same_pose t 0 _ Hd). reflexivity.
Qed.

(** The same over concrete numbers: the identity orientation. *)
Lemma OBBIntersection_same_pose_witness :
  @OBBIntersection RealFloat (mkOBB (mkV 1 1 1) (mkV 0 0 0)) (pose_at (mkV 0 0 0))
    (mkOBB (mkV 1 1 1) (mkV 0 0 0)) (pose_at (mkV 0 0 0)) CollisionInfo_new
  = (false, CollisionInfo_new).
Proof.
  apply OBBIntersection_same_pose.
  cbv [pose_at SetPosition Transform_default GetOrientation Qidentity Qrot Qmul
       Conjugate Dot f0 f1 qx qy qz qw vx vy vz].
  real. lra.
Defined.

(** ** Further properties: routines built on the sphere tests *)

Lemma SphereIntersection_outcome sA tA sB tB ci :
  let r := SphereIntersection sA tA sB tB ci in
  if fst r then 0 < penetration (point (snd r)) else snd r = ci.
Proof.
  cbv zeta. assert (H := SphereIntersection_contact sA tA sB tB ci).
  assert (H' := @SphereIntersection_false RealFloat sA tA sB tB ci).
  cbv zeta in H. destruct (fst (SphereIntersection sA tA sB tB ci));
    [apply H; reflexivity|apply H'; reflexivity].
Qed.

Lemma AABBSphereIntersection_outcome bA tA sB tB ci useBoxPoint :
  let r := AABBSphereIntersection bA tA sB tB ci useBoxPoint in
  if fst r then 0 < penetration (point (snd r)) else snd r = ci.
Proof.
  cbv zeta. assert (H := AABBSphereIntersection_contact bA tA sB tB ci useBoxPoint).
  assert (H' := @AABBSphereIntersection_false RealFloat bA tA sB tB ci useBoxPoint).
  cbv zeta in H. destruct (fst (AABBSphereIntersection bA tA sB tB ci useBoxPoint));
    [apply H; reflexivity|apply H'; reflexivity].
Qed.

(** Every routine that reduces its pair to the sphere-sphere or the
    box-sphere test keeps that test's outcome and penetration: a reported
    collision has a positive penetration, and without a collision the
    penetration of the caller's manifold is as before. *)
Theorem reduced_tests_penetration (tA tB : Transform) (ci : CollisionInfo) :
  let verdict := fun r : bool * CollisionInfo =>
    if fst r then 0 < penetration (point (snd r))
    else penetration (point (snd r)) = penetration (point ci) in
  (forall cA cB : CapsuleVolume, verdict (CapsuleIntersection cA tA cB tB ci))
  /\ (forall (cA : CapsuleVolume) (sB : SphereVolume),
        verdict (SphereCapsuleIntersection cA tA sB tB ci))
  /\ (forall (cA : CapsuleVolume) (bB : AABBVolume),
        verdict (AABBCapsuleIntersection cA tA bB tB ci))
  /\ (forall (sA : SphereVolume) (oB : OBBVolume),
        verdict (SphereOBBIntersection sA tA oB tB ci))
  /\ (forall (cA : CapsuleVolume) (oB : OBBVolume),
        verdict (CapsuleOBBIntersection cA tA oB tB ci)).
Proof.
  cbv zeta. repeat split; intros;
    unfold CapsuleIntersection, SphereCapsuleIntersection, AABBCapsuleIntersection,
      CapsuleOBBIntersection, SphereOBBIntersection; cbv zeta;
    match goal with
    | |- context [SphereIntersection ?a ?b ?c ?d ci] =>
        assert (H := SphereIntersection_outcome a b c d ci); cbv zeta in H;
        destruct (SphereIntersection a b c d ci) as [[|] ci']
    | |- context [AABBSphereIntersection ?a ?b ?c ?d ci ?e] =>
        assert (H := AABBSphereIntersection_outcome a b c d ci e); cbv zeta in H;
        destruct (AABBSphereIntersection a b c d ci e) as [[|] ci']
    end;
    cbn [fst snd set_localA set_localB set_normal point penetration] in *;
    solve [exact H | rewrite H; reflexivity].
Qed.

(** ** Further properties: the broad-phase box *)

Lemma abs_row (x y z a b c hx hy hz : R) :
  Rabs x <= hx -> Rabs y <= hy -> Rabs z <= hz ->
  Rabs (x * a + y * b + z * c) <= hx * Rabs a + hy * Rabs b + hz * Rabs c.
Proof.
  intros Hx Hy Hz.
  eapply Rle_trans; [apply Rabs_triang|].
  eapply Rle_trans; [apply Rplus_le_compat_r, Rabs_triang|].
  rewrite !Rabs_mult.
  assert (Ha := Rabs_pos a). assert (Hb := Rabs_pos b). assert (Hc := Rabs_pos c).
  assert (H0x := Rabs_pos x). assert (H0y := Rabs_pos y). assert (H0z := Rabs_pos z).
  nra.
Qed.

(** The box that [GetBroadphaseAABB] returns after [UpdateBroadphaseAABB]
    contains the volume: every point inside the volume's own extents, once
    turned with the body for an oriented box or a capsule, lies within the
    returned half sizes on each world axis. *)
Theorem broadphase_box_contains_volume (v : CollisionVolume) (t : Transform) (id : Z)
  (stored outSize p : Vector3) :
  Rabs (vx p) <= vx (local_extent v) ->
  Rabs (vy p) <= vy (local_extent v) ->
  Rabs (vz p) <= vz (local_extent v) ->
  let res := GetBroadphaseAABB (object v t id)
               (UpdateBroadphaseAABB (object v t id) stored) outSize in
  fst res = true
  /\ Rabs (vx (world_offset v t p)) <= vx (snd res)
  /\ Rabs (vy (world_offset v t p)) <= vy (snd res)
  /\ Rabs (vz (world_offset v t p)) <= vz (snd res).
Proof.
  intros Hx Hy Hz.
  destruct v as [b|o|s|c]; cbv zeta;
    cbn [GetBroadphaseAABB UpdateBroadphaseAABB object GetBoundingVolume GetTransform
         type VolumeType_eqb VolumeType_to_int Z.eqb Pos.eqb as_AABB as_OBB as_Sphere
         as_Capsule fst snd world_offset local_extent] in *;
    (split; [reflexivity|]);
    try (repeat split; assumption);
    unfold M3mulV, M3Absolute; cbn [vx vy vz m0 m1 m2 m3 m4 m5 m6 m7 m8] in *; real;
    repeat split; apply abs_row; assumption.
Qed.

(** The same over concrete numbers: a corner of the box of half extents
    (1, 2, 3) turned about the z axis by the quaternion (0, 0, 3, 4) / 5.
    The corner (1, -2, 3) lies at (2.2, 0.4, 3) from the centre, the box
    returned is (2.2, 1.52, 3): the corner touches it on the x axis. *)
Lemma broadphase_box_contains_volume_witness :
  let p := @mkV RealFloat 1 (-2) 3 in
  let res := @GetBroadphaseAABB RealFloat (object Example.slab Example.turned_pose 1)
               (UpdateBroadphaseAABB (object Example.slab Example.turned_pose 1)
                  (mkV 9 9 9))
               (mkV 7 7 7) in
  let q := world_offset Example.slab Example.turned_pose p in
  (fst res = true
   /\ Rabs (vx q) <= vx (snd res) /\ Rabs (vy q) <= vy (snd res)
   /\ Rabs (vz q) <= vz (snd res))
  /\ q = mkV (11 / 5) (2 / 5) 3
  /\ snd res = mkV (11 / 5) (38 / 25) 3.
Proof.
  split; [|split].
  - refine (@broadphase_box_contains_volume Example.slab Example.turned_pose 1
              (@mkV RealFloat 9 9 9) (@mkV RealFloat 7 7 7) (@mkV RealFloat 1 (-2) 3)
              _ _ _);
      cbn; unfold Rabs; destruct (Rcase_abs _); lra.
  - cbv zeta. unfold world_offset, Example.slab, Example.turned_pose, M3mulV.
    cbn [GetOrientation Matrix3_of_Quaternion qx qy qz qw vx vy vz
         m0 m1 m2 m3 m4 m5 m6 m7 m8].
    unfold two, f0, f1, lit. vector_eq; field.
  - cbv zeta.
    cbn [GetBroadphaseAABB UpdateBroadphaseAABB object GetBoundingVolume GetTransform
         type VolumeType_eqb VolumeType_to_int Z.eqb Pos.eqb as_AABB as_OBB as_Sphere
         as_Capsule fst snd Example.slab].
    unfold Example.turned_pose, M3mulV, M3Absolute, vec.
    cbn [GetOrientation Matrix3_of_Quaternion OBB_GetHalfDimensions qx qy qz qw
         vx vy vz m0 m1 m2 m3 m4 m5 m6 m7 m8].
    unfold two, f0, f1, lit. real.
    replace (1 - 2 * (0 * 0) - 2 * (3 / 5 * (3 / 5))) with (7 / 25) by field.
    replace (2 * (0 * 0) + 2 * (3 / 5 * (4 / 5))) with (24 / 25) by field.
    replace (2 * (0 * 0) - 2 * (3 / 5 * (4 / 5))) with (- (24 / 25)) by field.
    replace (2 * (0 * (3 / 5)) - 2 * (0 * (4 / 5))) with 0 by field.
    replace (2 * (0 * (3 / 5)) + 2 * (0 * (4 / 5))) with 0 by field.
    replace (1 - 2 * (0 * 0) - 2 * (0 * 0)) with 1 by field.
    rewrite Rabs_Ropp, !(Rabs_pos_eq (7 / 25)), !(Rabs_pos_eq (24 / 25)), Rabs_R0, Rabs_R1
      by lra.
    vector_eq; field.
Defined.

(** ** Further properties: a ray that starts inside a sphere *)

(** For a ray of unit direction whose origin lies strictly inside the
    sphere: if the direction points away from the centre (negative
    projection) no hit is reported although the ray leaves the sphere; if
    not, a hit is reported with a negative distance, that is, at the
    entry point behind the origin. *)
Theorem RaySphereIntersection_from_inside (r : Ray) (t : Transform)
  (volume : SphereVolume) (collision : RayCollision) :
  let spherePos := GetPosition t [+] Sphere_GetOffset volume in
  let projection := Dot (spherePos [-] Ray_GetPosition r) (Ray_GetDirection r) in
  let res := RaySphereIntersection r t volume collision in
  Dot (Ray_GetDirection r) (Ray_GetDirection r) = 1 ->
  Length (spherePos [-] Ray_GetPosition r) < Sphere_GetRadius volume ->
  if Rlt_dec projection 0 then res = (false, collision)
  else fst res = true /\ rayDistance (snd res) < 0.
Proof.
  intros spherePos projection res Hunit Hin. subst res.
  rewrite RaySphereIntersection_real. cbv zeta. fold spherePos. fold projection.
  destruct (Rlt_dec projection 0) as [Hneg|Hpos]; [reflexivity|].
  set (w := Ray_GetPosition r [+] Ray_GetDirection r [*] projection [-] spherePos).
  assert (HL0 := Length_nonneg (spherePos [-] Ray_GetPosition r)).
  assert (HL := Length_square (spherePos [-] Ray_GetPosition r)).
  assert (Hw0 := Length_nonneg w). assert (Hw := Length_square w).
  set (L := Length (spherePos [-] Ray_GetPosition r)) in *.
  set (dist := Length w) in *.
  assert (Hpyth : dist * dist = L * L - projection * projection).
  { rewrite Hw, HL. subst w projection. clearbody spherePos.
    destruct r as [[px py pz] [dx dy dz]]. destruct spherePos as [cx cy cz].
    cbv [Vadd Vsub Vscale Dot vx vy vz Ray_GetPosition Ray_GetDirection] in *. real.
    set (pr := (cx - px) * dx + (cy - py) * dy + (cz - pz) * dz).
    transitivity ((cx - px) * (cx - px) + (cy - py) * (cy - py) + (cz - pz) * (cz - pz)
                  - 2 * pr * pr + pr * pr * (dx * dx + dy * dy + dz * dz));
      [unfold pr; ring | rewrite Hunit; ring]. }
  set (radius := Sphere_GetRadius volume) in *.
  assert (Hdist : dist < radius) by nra.
  destruct (Rlt_dec radius dist) as [Hbad|_]; [exfalso; lra|].
  cbn [fst snd rayDistance]. split; [reflexivity|].
  assert (Hs0 := sqrt_pos (radius * radius - dist * dist)).
  assert (Hs : sqrt (radius * radius - dist * dist) * sqrt (radius * radius - dist * dist)
               = radius * radius - dist * dist) by (apply sqrt_sqrt; nra).
  set (s := sqrt (radius * radius - dist * dist)) in *. nra.
Qed.

(** The same over concrete numbers: from the centre of the unit sphere. *)
Lemma RaySphereIntersection_from_inside_witness :
  let res := @RaySphereIntersection RealFloat (mkRay (mkV 0 0 0) (mkV 1 0 0))
               (pose_at (mkV 0 0 0)) (mkSphere 1 (mkV 0 0 0))
               (mkRayCollision (mkV 0 0 0) 0) in
  if Rlt_dec (Dot ((@pose_at RealFloat (mkV 0 0 0)).(GetPosition) [+] mkV 0 0 0
                   [-] mkV 0 0 0) (mkV 1 0 0)) 0
  then res = (false, mkRayCollision (mkV 0 0 0) 0)
  else fst res = true /\ rayDistance (snd res) < 0.
Proof.
  refine (@RaySphereIntersection_from_inside
            (mkRay (@mkV RealFloat 0 0 0) (@mkV RealFloat 1 0 0))
            (pose_at (@mkV RealFloat 0 0 0)) (mkSphere 1 (@mkV RealFloat 0 0 0))
            (mkRayCollision (@mkV RealFloat 0 0 0) 0) _ _).
  - cbn. lra.
  - match goal with |- Length ?v < _ => replace (Length v) with 0 end; [cbn; lra|].
    symmetry. apply Length_zero. cbn. repeat split; lra.
Defined.

(** ** Further properties: the closest point on a segment *)

(** For a segment with two distinct ends, [ClosestPointOnLineSegment]
    returns a point of the segment from [a] to [b], and no point of the
    segment is nearer to [point].  (With [a = b] the code divides 0 by 0.) *)
Theorem ClosestPointOnLineSegment_nearest (a b point : Vector3) (s : R) :
  a <> b ->
  0 <= s <= 1 ->
  let c := ClosestPointOnLineSegment a b point in
  let q := a [+] (b [-] a) [*] s in
  (exists t : R, 0 <= t <= 1 /\ c = a [+] (b [-] a) [*] t)
  /\ Dot (c [-] point) (c [-] point) <= Dot (q [-] point) (q [-] point).
Proof.
  intros Hne Hs. cbv zeta. unfold ClosestPointOnLineSegment. cbv zeta.
  set (A := Dot (b [-] a) (b [-] a)). set (B := Dot (point [-] a) (b [-] a)).
  unfold f0, f1. real.
  assert (N : A <> 0).
  { intros E. apply Hne. unfold A, Dot in E. cbn [Vsub vx vy vz] in E. real.
    assert (Sx := Rle_0_sqr (vx b - vx a)). assert (Sy := Rle_0_sqr (vy b - vy a)).
    assert (Sz := Rle_0_sqr (vz b - vz a)). unfold Rsqr in Sx, Sy, Sz.
    assert (Hx : (vx b - vx a) * (vx b - vx a) = 0) by lra.
    assert (Hy : (vy b - vy a) * (vy b - vy a) = 0) by lra.
    assert (Hz : (vz b - vz a) * (vz b - vz a) = 0) by lra.
    apply Rmult_integral in Hx, Hy, Hz.
    apply Vector3_eq; real; lra. }
  assert (HT := @Clamp_range (B / A) 0 1 ltac:(lra)).
  assert (Hcase : (Clamp (B / A) 0 1 = 0 /\ B <= 0)
                  \/ (Clamp (B / A) 0 1 = 1 /\ A <= B)
                  \/ Clamp (B / A) 0 1 * A = B).
  { assert (HA : 0 < A).
    { assert (0 <= A) by (unfold A, Dot; apply sum_squares_nonneg). lra. }
    assert (Hinv : 0 < / A) by (apply Rinv_0_lt_compat; exact HA).
    assert (HBA : B / A * A = B) by (field; exact N).
    unfold Clamp. real. unfold RF.ltb.
    destruct (Rlt_dec (B / A) 0); [left; split; [reflexivity|nra]|].
    destruct (Rlt_dec 1 (B / A)); [right; left; split; [reflexivity|nra]|].
    right; right. exact HBA. }
  set (T := Clamp _ _ _) in *. clearbody T.
  split; [exists T; split; [exact HT|reflexivity]|].
  subst A B. destruct a as [ax ay az], b as [bx by' bz], point as [px py pz].
  cbv [Vadd Vsub Vscale Dot vx vy vz] in *. real.
  set (ux := bx - ax) in *. set (uy := by' - ay) in *. set (uz := bz - az) in *.
  set (wx := px - ax) in *. set (wy := py - ay) in *. set (wz := pz - az) in *.
  set (A := ux * ux + uy * uy + uz * uz) in *.
  set (B := wx * ux + wy * uy + wz * uz) in *.
  assert (Hdiff : (ax + ux * s - px) * (ax + ux * s - px)
                  + (ay + uy * s - py) * (ay + uy * s - py)
                  + (az + uz * s - pz) * (az + uz * s - pz)
                  - ((ax + ux * T - px) * (ax + ux * T - px)
                     + (ay + uy * T - py) * (ay + uy * T - py)
                     + (az + uz * T - pz) * (az + uz * T - pz))
                  = (s - T) * (A * (s + T) - 2 * B))
    by (unfold A, B, wx, wy, wz; ring).
  assert (HA0 : 0 <= A) by (unfold A; nra).
  assert (Hgoal : 0 <= (s - T) * (A * (s + T) - 2 * B)).
  { destruct Hcase as [[E HB]|[[E HB]|E]].
    - rewrite E.
      assert (0 <= A * (s * s)) by (apply Rmult_le_pos; nra).
      assert (0 <= (- B) * s) by (apply Rmult_le_pos; lra).
      nra.
    - rewrite E.
      assert (0 <= A * (1 - s)) by (apply Rmult_le_pos; lra).
      assert (0 <= (1 - s) * (2 * B - A * (s + 1))) by (apply Rmult_le_pos; nra).
      nra.
    - rewrite <- E. replace ((s - T) * (A * (s + T) - 2 * (T * A)))
        with (A * ((s - T) * (s - T))) by ring.
      apply Rmult_le_pos; [exact HA0|].
      generalize (s - T). intros d. generalize (Rle_0_sqr d). unfold Rsqr. tauto. }
  lra.
Qed.

Lemma ClosestPointOnLineSegment_nearest_witness :
  let c := @ClosestPointOnLineSegment RealFloat (mkV 0 0 0) (mkV 2 0 0) (mkV 1 1 0) in
  let q := @mkV RealFloat 0 0 0 [+] (mkV 2 0 0 [-] mkV 0 0 0) [*] 0 in
  (exists t : R, 0 <= t <= 1 /\ c = mkV 0 0 0 [+] (mkV 2 0 0 [-] mkV 0 0 0) [*] t)
  /\ Dot (c [-] mkV 1 1 0) (c [-] mkV 1 1 0) <= Dot (q [-] mkV 1 1 0) (q [-] mkV 1 1 0).
Proof.
  refine (@ClosestPointOnLineSegment_nearest (@mkV RealFloat 0 0 0)
            (@mkV RealFloat 2 0 0) (@mkV RealFloat 1 1 0) 0 _ _).
  - intros H. injection H as H. lra.
  - lra.
Defined.

(** ** Further properties: the sphere that stands for a capsule *)

Lemma Clamp_scaled (x L : R) :
  0 < L -> Clamp (x / L) 0 L = L * Clamp (x / (L * L)) 0 1.
Proof.
  intros HL. assert (Hinv : 0 < / L) by (apply Rinv_0_lt_compat; exact HL).
  assert (E : x / (L * L) = x / L / L) by (field; lra).
  assert (E2 : x / L = x / L / L * L) by (field; lra).
  rewrite E. set (y := x / L) in *. set (z := y / L) in *.
  unfold Clamp. real. unfold RF.ltb.
  destruct (Rlt_dec y 0), (Rlt_dec z 0); try nra.
  destruct (Rlt_dec L y), (Rlt_dec 1 z); nra.
Qed.

(** The point [SpherePosFromCapsule] returns is the point
    [ClosestPointOnLineSegment] finds on the capsule's axis, from [capBottom]
    to [capTop]; when the two ends coincide it is that end. *)
Theorem SpherePosFromCapsule_closest_point (capsule : CapsuleVolume)
  (capTransform : Transform) (otherObjPos : Vector3) :
  let extentPosition := Qrot (GetOrientation capTransform) (mkV 0 1 0)
                        [*] (Capsule_GetHalfHeight capsule - Capsule_GetRadius capsule) in
  let capTop := GetPosition capTransform [+] Capsule_GetOffset capsule [+] extentPosition in
  let capBottom := GetPosition capTransform [+] Capsule_GetOffset capsule [-] extentPosition in
  (capTop <> capBottom ->
   SpherePosFromCapsule capsule capTransform otherObjPos
   = ClosestPointOnLineSegment capBottom capTop otherObjPos)
  /\ (capTop = capBottom ->
      SpherePosFromCapsule capsule capTransform otherObjPos = capBottom).
Proof.
  cbv zeta. unfold SpherePosFromCapsule, ClosestPointOnLineSegment. cbv zeta.
  unfold f0, f1. real.
  set (extentPosition := Qrot _ _ [*] _).
  set (capTop := _ [+] _ [+] extentPosition).
  set (capBottom := _ [+] _ [-] extentPosition).
  set (d := capTop [-] capBottom). set (w := otherObjPos [-] capBottom).
  split.
  - intros Hne.
    assert (HL : Length d <> 0).
    { intros H0. apply Length_zero in H0. destruct H0 as (Hx & Hy & Hz).
      apply Hne. subst d. clearbody capTop capBottom.
      destruct capTop, capBottom. cbn [Vsub vx vy vz] in *. real.
      apply Vector3_eq; cbn [vx vy vz]; real; lra. }
    assert (HLpos : 0 < Length d) by (assert (H := Length_nonneg d); lra).
    assert (Hsq := Length_square d).
    rewrite Normalised_nonzero by exact HL.
    assert (Hdot : Dot w (mkV (vx d / Length d) (vy d / Length d) (vz d / Length d))
                   = Dot w d / Length d).
    { unfold Dot. cbn [vx vy vz]. real. field. exact HL. }
    rewrite Hdot.
    assert (Hdd : Dot d d = Length d * Length d).
    { rewrite Hsq. unfold Dot. real. reflexivity. }
    rewrite Hdd. rewrite (Clamp_scaled (Dot w d) HLpos).
    set (T := Clamp _ _ _). clearbody T. set (L := Length d) in *. clearbody L.
    clearbody d capBottom. destruct d, capBottom.
    vector_eq; field; exact HL.
  - intros Heq.
    assert (Hd : vx d = 0 /\ vy d = 0 /\ vz d = 0).
    { subst d. rewrite Heq. clearbody capBottom. destruct capBottom.
      cbn [Vsub vx vy vz]. real. repeat split; ring. }
    assert (HL : Length d = 0) by (apply Length_zero; exact Hd).
    rewrite Normalised_zero by exact HL. rewrite HL.
    destruct Hd as (Hx & Hy & Hz).
    assert (Hdot : Dot w d = 0).
    { unfold Dot. real. rewrite Hx, Hy, Hz. ring. }
    rewrite Hdot. rewrite Clamp_inside by lra.
    clearbody d capBottom. destruct d, capBottom.
    cbn [vx vy vz] in *. vector_eq; nra.
Qed.

End RealModel.

(** * Properties in binary32 *)

Section Binary32Model.
Local Existing Instance Binary32.

(** ** Counterexamples *)

(** C1, against the spec's wording, one input for each way the two
    argument orders differ.  The unit box at the origin and the unit sphere
    at (1.5,0,0) collide in both orders with the normal (1,0,0), not
    negated.  Two boxes of half extent 1 at the same place collide in both
    orders with the normal (-1,0,0), not negated.  The cube of side 1 and
    the cube of side 4 around it collide in both orders, with penetration
    FLT_MAX in one and 2.5 in the other, also when the larger one is an
    AABB; the unit cube and the unit cube askew at (0.5,0,0) collide in one
    order and not in the other.  The upright capsule and the leaning
    capsule collide in one order and not in the other. *)
Lemma C1_exchanged_calls_differ :
  (let r1 := ObjectIntersection Example.box_object Example.sphere_object
               CollisionInfo_new in
   let r2 := ObjectIntersection Example.sphere_object Example.box_object
               CollisionInfo_new in
   fst r1 = true /\ fst r2 = true
   /\ normal (point (snd r1)) = vec 1 0 0
   /\ normal (point (snd r2)) = vec 1 0 0
   /\ feq (vx (normal (point (snd r2)))) (vx ([-] normal (point (snd r1)))) = false)
  /\ (let r1 := ObjectIntersection Example.box_object Example.box_twin
                  CollisionInfo_new in
      let r2 := ObjectIntersection Example.box_twin Example.box_object
                  CollisionInfo_new in
      fst r1 = true /\ fst r2 = true
      /\ normal (point (snd r1)) = vec (-1) 0 0
      /\ normal (point (snd r2)) = vec (-1) 0 0
      /\ feq (vx (normal (point (snd r2)))) (vx ([-] normal (point (snd r1)))) = false)
  /\ (let r1 := ObjectIntersection Example.small_cube Example.big_cube
                  CollisionInfo_new in
      let r2 := ObjectIntersection Example.big_cube Example.small_cube
                  CollisionInfo_new in
      fst r1 = true /\ fst r2 = true
      /\ penetration (point (snd r1)) = FLT_MAX
      /\ penetration (point (snd r2)) = lit 5 2
      /\ feq (penetration (point (snd r1))) (penetration (point (snd r2))) = false)
  /\ (let r1 := ObjectIntersection Example.small_cube Example.cube_askew
                  CollisionInfo_new in
      let r2 := ObjectIntersection Example.cube_askew Example.small_cube
                  CollisionInfo_new in
      fst r1 = true /\ fst r2 = false)
  /\ (let r1 := ObjectIntersection Example.small_cube Example.big_box
                  CollisionInfo_new in
      let r2 := ObjectIntersection Example.big_box Example.small_cube
                  CollisionInfo_new in
      fst r1 = true /\ fst r2 = true
      /\ penetration (point (snd r1)) = FLT_MAX
      /\ penetration (point (snd r2)) = lit 5 2)
  /\ (let r1 := ObjectIntersection Example.capsule_upright Example.capsule_leaning
                  CollisionInfo_new in
      let r2 := ObjectIntersection Example.capsule_leaning Example.capsule_upright
                  CollisionInfo_new in
      fst r1 = true /\ fst r2 = false).
Proof. cbv zeta. repeat split. Qed.

(** C2, against the spec's wording: the separating-axis test hands back
    its axis without normalising it.  The unit cube at the origin and the
    unit cube at (1, 0.5, 0) turned by the quaternion (2,2,5,4)/7, whose
    squared norm is 1 also as computed, collide with a penetration below
    1, written by the loop.  The normal is the opposite of the cross
    product of an edge of either cube; its squared length is below 0.994
    and its length below 0.997. *)
Lemma C2_obb_normal_is_not_unit :
  let r := ObjectIntersection Example.small_cube Example.cube_tilted
             CollisionInfo_new in
  let n := normal (point (snd r)) in
  Qnorm2 (GetOrientation Example.tilted_pose) = f1
  /\ fst r = true
  /\ flt (penetration (point (snd r))) f1 = true
  /\ n = [-] Cross (Qrot Qidentity (vec 0 0 1))
                   (Qrot (GetOrientation Example.tilted_pose) (vec 1 0 0))
  /\ flt (Dot n n) (lit 994 1000) = true
  /\ flt (Length n) (lit 997 1000) = true
  /\ feq (Length n) f1 = false.
Proof. cbv zeta. repeat split. Qed.

(** The missed case of a contact without direction, in binary32: a unit
    sphere centred inside the unit box is reported as a collision whose
    normal is the zero vector, of length 0. *)
Lemma sphere_inside_box_has_zero_normal :
  let r := ObjectIntersection Example.box_object Example.sphere_inside
             CollisionInfo_new in
  fst r = true
  /\ normal (point (snd r)) = Vzero
  /\ Length (normal (point (snd r))) = f0
  /\ penetration (point (snd r)) = f1.
Proof. cbv zeta. repeat split. Qed.

(** C3, where the code departs from it: two unit spheres with the same
    centre are reported as colliding, with penetration 2, and the normal
    handed back is the zero vector: its length is 0, not 1.  The code
    normalises the vector between the centres without a case for a vector
    of length 0. *)
Theorem C3_coincident_spheres_have_zero_normal :
  let r := ObjectIntersection Example.sphere_inside Example.sphere_twin
             CollisionInfo_new in
  let r' := SphereIntersection Example.unit_sphere (pose_at Vzero)
              Example.unit_sphere (pose_at Vzero) CollisionInfo_new in
  fst r = true
  /\ point (snd r) = point (snd r')
  /\ penetration (point (snd r)) = of_Z 2
  /\ normal (point (snd r)) = Vzero
  /\ Length (normal (point (snd r))) = f0
  /\ feq (Length (normal (point (snd r)))) f1 = false
  /\ localA (point (snd r)) = Vzero.
Proof. cbv zeta. repeat split. Qed.

(** ** The separating-axis test on a box inside a box *)

(** C5: there are two OBB poses for which the separating-axis test reports
    a collision although no round of its loop wrote the contact.  For the
    cube of side 1 inside the cube of side 4, every one of the fifteen
    rounds either skips its axis or takes the branch that only sets
    [penIndex]; the call returns true and the manifold is the caller's own,
    with the penetration at FLT_MAX, the normal untouched and the anchors
    shifted by the box centres. *)
Theorem C5_obb_collision_with_stale_manifold :
  exists (volumeA volumeB : OBBVolume) (tA tB : Transform),
    (forall ci : CollisionInfo,
        OBBIntersection volumeA tA volumeB tB ci
        = (true, stale_manifold volumeA tA volumeB tB ci))
    /\ (forall (i : nat) (direction : Vector3),
          nth_error (OBB_directions tA tB) i = Some direction ->
          round_writes_nothing tA tB (Z.of_nat i) direction)
    /\ (exists direction, nth_error (OBB_directions tA tB) 0 = Some direction
                          /\ forall st, OBB_axis tA tB 0 direction st
                                         = (true, mkOBBLoop (leastPenetration st) 0 (info st))).
Proof.
  exists Example.cube, Example.cube, Example.small_pose, Example.big_pose.
  split; [|split].
  - intros [ca cb [lA lB n p]]. reflexivity.
  - intros i direction Hi st.
    do 15 (destruct i as [|i];
           [injection Hi as <-; destruct st as [lp pi ci];
            first [left; reflexivity | right; reflexivity]|]).
    destruct i; discriminate Hi.
  - eexists. split; [reflexivity|]. intros [lp pi ci]. reflexivity.
Qed.

End Binary32Model.

(** * Further properties of the code *)

Section MoreAnyArithmetic.
Context {F : Float}.

(** ** Ray queries that report no hit *)

Lemma RayBoxIntersection_miss r boxPos boxSize collision :
  fst (RayBoxIntersection r boxPos boxSize collision) = false ->
  snd (RayBoxIntersection r boxPos boxSize collision) = collision.
Proof.
  unfold RayBoxIntersection. cbv zeta.
  repeat match goal with |- context [if ?c then _ else _] => destruct c end;
    cbn [fst snd]; solve [reflexivity | discriminate].
Qed.

Lemma RayOBBIntersection_miss r t volume collision :
  fst (RayOBBIntersection r t volume collision) = false ->
  snd (RayOBBIntersection r t volume collision) = collision.
Proof.
  unfold RayOBBIntersection. cbv zeta.
  match goal with |- context [RayBoxIntersection ?a ?b ?c collision] =>
    assert (H := RayBoxIntersection_miss a b c collision);
    destruct (RayBoxIntersection a b c collision) as [[|] col'] end;
    cbn [fst snd] in *; [discriminate|]. intros _. apply H. reflexivity.
Qed.

Lemma RaySphereIntersection_miss r t volume collision :
  fst (RaySphereIntersection r t volume collision) = false ->
  snd (RaySphereIntersection r t volume collision) = collision.
Proof.
  unfold RaySphereIntersection. cbv zeta.
  repeat match goal with |- context [if ?c then _ else _] => destruct c end;
    cbn [fst snd]; solve [reflexivity | discriminate].
Qed.

Lemma RayPlaneIntersection_distance r p collision :
  rayDistance (snd (RayPlaneIntersection r p collision)) = rayDistance collision.
Proof.
  unfold RayPlaneIntersection. cbv zeta.
  match goal with |- context [if ?c then _ else _] => destruct c end; reflexivity.
Qed.

Lemma RayCapsuleIntersection_miss r t volume collision :
  fst (RayCapsuleIntersection r t volume collision) = false ->
  rayDistance (snd (RayCapsuleIntersection r t volume collision)) = rayDistance collision.
Proof.
  unfold RayCapsuleIntersection. cbv zeta.
  match goal with |- context [RayPlaneIntersection ?a ?b collision] =>
    assert (Hd := RayPlaneIntersection_distance a b collision);
    destruct (RayPlaneIntersection a b collision) as [[|] col'] end;
    cbn [fst snd negb] in *; [|intros _; exact Hd].
  intros Hmiss. rewrite (RaySphereIntersection_miss _ _ _ _ Hmiss). exact Hd.
Qed.

(** A ray query on an object that reports no hit leaves [rayDistance] as it
    was; for a box, an oriented box, a sphere or no volume at all it leaves
    the whole hit record as it was.  (For a capsule the point of the
    intermediate plane test may stay in [collidedAt].) *)
Theorem RayIntersection_miss_keeps_record (r : Ray) (object : GameObject)
  (collision : RayCollision) :
  fst (RayIntersection r object collision) = false ->
  rayDistance (snd (RayIntersection r object collision)) = rayDistance collision
  /\ match GetBoundingVolume object with
     | Some (VolCapsule _) => True
     | _ => snd (RayIntersection r object collision) = collision
     end.
Proof.
  unfold RayIntersection. cbv zeta.
  destruct (GetBoundingVolume object) as [[v|v|v|v]|]; cbn [type as_AABB as_OBB as_Sphere as_Capsule].
  - intros H. unfold RayAABBIntersection in *. cbv zeta in *.
    rewrite (RayBoxIntersection_miss _ _ _ _ H). split; reflexivity.
  - intros H. rewrite (RayOBBIntersection_miss _ _ _ _ H). split; reflexivity.
  - intros H. rewrite (RaySphereIntersection_miss _ _ _ _ H). split; reflexivity.
  - intros H. split; [exact (RayCapsuleIntersection_miss _ _ _ _ H)|exact I].
  - intros _. split; reflexivity.
Qed.

(** ** What a failing pair test never touches *)

Lemma AABBIntersection_false va tA vb tB ci :
  fst (AABBIntersection va tA vb tB ci) = false ->
  snd (AABBIntersection va tA vb tB ci) = ci.
Proof.
  unfold AABBIntersection. cbv zeta. destruct (AABBTest _ _ _ _); [|reflexivity].
  destruct (bestFace _ _). cbn. discriminate.
Qed.

Lemma CapsuleIntersection_penetration va tA vb tB ci :
  fst (CapsuleIntersection va tA vb tB ci) = false ->
  same_penetration ci (snd (CapsuleIntersection va tA vb tB ci)).
Proof.
  unfold CapsuleIntersection, same_penetration. cbv zeta.
  match goal with |- context [SphereIntersection ?a ?b ?c ?d ci] =>
    assert (H := SphereIntersection_false a b c d ci);
    destruct (SphereIntersection a b c d ci) as [res ci'] end.
  cbn [fst snd] in *. intros Hres. rewrite (H Hres). reflexivity.
Qed.

Lemma SphereCapsuleIntersection_penetration va tA vb tB ci :
  fst (SphereCapsuleIntersection va tA vb tB ci) = false ->
  same_penetration ci (snd (SphereCapsuleIntersection va tA vb tB ci)).
Proof.
  unfold SphereCapsuleIntersection, same_penetration. cbv zeta.
  match goal with |- context [SphereIntersection ?a ?b ?c ?d ci] =>
    assert (H := SphereIntersection_false a b c d ci);
    destruct (SphereIntersection a b c d ci) as [res ci'] end.
  cbn [fst snd] in *. intros Hres. rewrite (H Hres). reflexivity.
Qed.

Lemma AABBCapsuleIntersection_penetration va tA vb tB ci :
  fst (AABBCapsuleIntersection va tA vb tB ci) = false ->
  same_penetration ci (snd (AABBCapsuleIntersection va tA vb tB ci)).
Proof.
  unfold AABBCapsuleIntersection, same_penetration. cbv zeta.
  match goal with |- context [AABBSphereIntersection ?a ?b ?c ?d ci ?e] =>
    assert (H := AABBSphereIntersection_false a b c d ci e);
    destruct (AABBSphereIntersection a b c d ci e) as [res ci'] end.
  cbn [fst snd] in *. intros Hres. rewrite (H Hres). reflexivity.
Qed.

Lemma SphereOBBIntersection_penetration va tA vb tB ci :
  fst (SphereOBBIntersection va tA vb tB ci) = false ->
  same_penetration ci (snd (SphereOBBIntersection va tA vb tB ci)).
Proof.
  unfold SphereOBBIntersection, same_penetration. cbv zeta.
  match goal with |- context [AABBSphereIntersection ?a ?b ?c ?d ci ?e] =>
    assert (H := AABBSphereIntersection_false a b c d ci e);
    destruct (AABBSphereIntersection a b c d ci e) as [res ci'] end.
  cbn [fst snd] in *. intros Hres. rewrite (H Hres). reflexivity.
Qed.

Lemma CapsuleOBBIntersection_penetration va tA vb tB ci :
  fst (CapsuleOBBIntersection va tA vb tB ci) = false ->
  same_penetration ci (snd (CapsuleOBBIntersection va tA vb tB ci)).
Proof.
  unfold CapsuleOBBIntersection, same_penetration. cbv zeta.
  match goal with |- context [SphereOBBIntersection ?a ?b ?c ?d ci] =>
    assert (H := SphereOBBIntersection_penetration a b c d ci);
    destruct (SphereOBBIntersection a b c d ci) as [res ci'] end.
  cbn [fst snd] in *. intros Hres. exact (H Hres).
Qed.

Lemma OBB_axis_penetration tA tB i d st :
  penetration (point (info (snd (OBB_axis tA tB i d st))))
  = penetration (point (info st)).
Proof.
  unfold OBB_axis. cbv zeta.
  repeat match goal with |- context [if ?c then _ else _] => destruct c end;
    reflexivity.
Qed.

Lemma OBB_loop_penetration tA tB directions : forall i st,
  penetration (point (info (snd (OBB_loop tA tB directions i st))))
  = penetration (point (info st)).
Proof.
  induction directions as [|d rest IH]; intros i st; [reflexivity|].
  cbn [OBB_loop]. assert (H := OBB_axis_penetration tA tB i d st).
  destruct (OBB_axis tA tB i d st) as [[|] st']; cbn [snd] in *.
  - rewrite IH. exact H.
  - exact H.
Qed.

Lemma OBBIntersection_penetration va tA vb tB ci :
  fst (OBBIntersection va tA vb tB ci) = false ->
  same_penetration ci (snd (OBBIntersection va tA vb tB ci)).
Proof.
  unfold OBBIntersection, same_penetration. cbv zeta.
  assert (H := OBB_loop_penetration tA tB (OBB_directions tA tB) 0
                 (mkOBBLoop FLT_MAX (-1) ci)).
  destruct (OBB_loop _ _ _ _ _) as [[|] st]; cbn [fst snd] in *; [discriminate|].
  intros _. exact H.
Qed.

(** Whatever the two kinds of volume, a pair test that reports no collision
    leaves the penetration of the caller's manifold as it was (the bodies,
    and for some routines the anchors and the normal, are written all the
    same). *)
Theorem ObjectIntersection_failure_keeps_penetration (volA volB : CollisionVolume)
  (tA tB : Transform) (idA idB : Z) (ci : CollisionInfo) :
  fst (ObjectIntersection (object volA tA idA) (object volB tB idB) ci) = false ->
  penetration (point (snd (ObjectIntersection (object volA tA idA)
                             (object volB tB idB) ci)))
  = penetration (point ci).
Proof.
  rewrite ObjectIntersection_dispatch. unfold ObjectIntersection_table. cbv zeta.
  destruct volA, volB; intros H;
    lazymatch goal with
    | |- context [AABBIntersection _ _ _ _ _] =>
        rewrite (AABBIntersection_false _ _ _ _ _ H); reflexivity
    | |- context [SphereIntersection _ _ _ _ _] =>
        rewrite (SphereIntersection_false _ _ _ _ _ H); reflexivity
    | |- context [AABBSphereIntersection _ _ _ _ _ _] =>
        rewrite (AABBSphereIntersection_false _ _ _ _ _ _ H); reflexivity
    | |- context [OBBIntersection _ _ _ _ _] =>
        exact (OBBIntersection_penetration _ _ _ _ _ H)
    | |- context [CapsuleIntersection _ _ _ _ _] =>
        exact (CapsuleIntersection_penetration _ _ _ _ _ H)
    | |- context [SphereCapsuleIntersection _ _ _ _ _] =>
        exact (SphereCapsuleIntersection_penetration _ _ _ _ _ H)
    | |- context [AABBCapsuleIntersection _ _ _ _ _] =>
        exact (AABBCapsuleIntersection_penetration _ _ _ _ _ H)
    | |- context [SphereOBBIntersection _ _ _ _ _] =>
        exact (SphereOBBIntersection_penetration _ _ _ _ _ H)
    | |- context [CapsuleOBBIntersection _ _ _ _ _] =>
        exact (CapsuleOBBIntersection_penetration _ _ _ _ _ H)
    end.
Qed.

(** ** The broad-phase box of an object *)

(** Without a bounding volume [GetBroadphaseAABB] fails and leaves the
    caller's vector alone, and [UpdateBroadphaseAABB] leaves the stored box
    alone.  With a volume, reading after an update succeeds and returns a
    box that depends on the volume and the orientation only: neither the
    box stored before nor the caller's vector shows through. *)
Theorem broadphase_after_update (v : CollisionVolume) (t : Transform) (id : Z)
  (stored stored' outSize outSize' : Vector3) :
  GetBroadphaseAABB (bare_object t id) stored outSize = (false, outSize)
  /\ UpdateBroadphaseAABB (bare_object t id) stored = stored
  /\ fst (GetBroadphaseAABB (object v t id)
            (UpdateBroadphaseAABB (object v t id) stored) outSize) = true
  /\ GetBroadphaseAABB (object v t id) (UpdateBroadphaseAABB (object v t id) stored) outSize
     = GetBroadphaseAABB (object v t id) (UpdateBroadphaseAABB (object v t id) stored')
         outSize'
  /\ snd (GetBroadphaseAABB (object v t id)
            (UpdateBroadphaseAABB (object v t id) stored) outSize)
     = match v with
       | VolAABB _ | VolSphere _ => local_extent v
       | VolOBB _ | VolCapsule _ =>
           M3mulV (M3Absolute (Matrix3_of_Quaternion (GetOrientation t))) (local_extent v)
       end.
Proof. destruct v; repeat split. Qed.

End MoreAnyArithmetic.

(** * Single precision: degenerate capsules, and concrete inputs *)

Section MoreBinary32.
Local Existing Instance Binary32.

(** ** A capsule whose half height equals its radius *)

Lemma sub_self_zero_or_nan (x : float) : zero_or_nan (fsub x x) = true.
Proof.
  destruct x as [s|s| |s m e]; try (destruct s; reflexivity); try reflexivity.
  cbn [fsub Binary32]. unfold SFsub. rewrite Z.sub_diag. reflexivity.
Qed.

Lemma mul_zero_or_nan (x z : float) :
  zero_or_nan z = true -> zero_or_nan (fmul x z) = true.
Proof. destruct z; try discriminate; intros _; destruct x; reflexivity. Qed.

Lemma add_zero_or_nan (x y : float) :
  zero_or_nan x = true -> zero_or_nan y = true -> zero_or_nan (fadd x y) = true.
Proof.
  destruct x as [[]|?| |? ? ?]; try discriminate;
    destruct y as [[]|?| |? ? ?]; try discriminate; reflexivity.
Qed.

Lemma div_zero_or_nan (x y : float) :
  zero_or_nan x = true -> zero_or_nan y = true -> fdiv x y = S754_nan.
Proof.
  destruct x as [?|?| |? ? ?]; try discriminate;
    destruct y as [?|?| |? ? ?]; try discriminate; reflexivity.
Qed.

(** The two ends [b + e] and [b - e] of an axis whose extent [e] is a zero
    or a NaN differ by a zero or a NaN. *)
Lemma ends_zero_or_nan (b e : float) :
  zero_or_nan e = true -> zero_or_nan (fsub (fadd b e) (fsub b e)) = true.
Proof.
  destruct e as [se|?| |? ? ?]; try discriminate; intros _.
  - destruct b as [sb|sb| |sb m ex].
    + destruct sb, se; reflexivity.
    + destruct sb; reflexivity.
    + reflexivity.
    + exact (sub_self_zero_or_nan (S754_finite sb m ex)).
  - destruct b; reflexivity.
Qed.

Lemma add_nan_r (x : float) : fadd x S754_nan = S754_nan.
Proof. destruct x; reflexivity. Qed.

Lemma sub_nan_r (x : float) : fsub x S754_nan = S754_nan.
Proof. destruct x; reflexivity. Qed.

Lemma mul_nan_r (x : float) : fmul x S754_nan = S754_nan.
Proof. destruct x; reflexivity. Qed.

Lemma Dot_zero_or_nan (w d : Vector3) :
  zero_or_nan (vx d) = true -> zero_or_nan (vy d) = true -> zero_or_nan (vz d) = true ->
  zero_or_nan (Dot w d) = true.
Proof.
  intros Hx Hy Hz. unfold Dot.
  repeat apply add_zero_or_nan; apply mul_zero_or_nan; assumption.
Qed.

Lemma Vscale_nan (v : Vector3) : v [*] S754_nan = Vnan.
Proof. unfold Vscale, Vnan. rewrite !mul_nan_r. reflexivity. Qed.

Lemma Vadd_nan (v : Vector3) : v [+] Vnan = Vnan.
Proof. unfold Vadd, Vnan. cbn [vx vy vz]. rewrite !add_nan_r. reflexivity. Qed.

(** On a segment whose ends differ by zeros or NaNs the division is 0/0. *)
Lemma ClosestPointOnLineSegment_degenerate (a b point : Vector3) :
  zero_or_nan (vx (b [-] a)) = true -> zero_or_nan (vy (b [-] a)) = true ->
  zero_or_nan (vz (b [-] a)) = true ->
  ClosestPointOnLineSegment a b point = Vnan.
Proof.
  intros Hx Hy Hz. unfold ClosestPointOnLineSegment. cbv zeta.
  rewrite (@div_zero_or_nan _ _ (@Dot_zero_or_nan (point [-] a) (b [-] a) Hx Hy Hz)
             (@Dot_zero_or_nan (b [-] a) (b [-] a) Hx Hy Hz)).
  change (@Clamp Binary32 S754_nan f0 f1) with S754_nan.
  rewrite Vscale_nan. apply Vadd_nan.
Qed.

Lemma ClosestPointOnLineSegment_of_nan (a b : Vector3) :
  ClosestPointOnLineSegment a b Vnan = Vnan.
Proof.
  unfold ClosestPointOnLineSegment. cbv zeta.
  change (@fdiv Binary32 (Dot (Vnan [-] a) (b [-] a)) (Dot (b [-] a) (b [-] a)))
    with S754_nan.
  change (@Clamp Binary32 S754_nan f0 f1) with S754_nan.
  rewrite Vscale_nan. apply Vadd_nan.
Qed.

Lemma SphereIntersection_nan (volumeA volumeB : SphereVolume)
  (worldTransformA worldTransformB : Transform) (collisionInfo : CollisionInfo) :
  GetPosition worldTransformA = Vnan ->
  SphereIntersection volumeA worldTransformA volumeB worldTransformB collisionInfo
  = (false, collisionInfo).
Proof.
  intros H. unfold SphereIntersection. cbv zeta. rewrite H.
  change (Vnan [+] Sphere_GetOffset volumeA) with Vnan.
  unfold Vsub, Vnan. cbn [vx vy vz]. rewrite !sub_nan_r. reflexivity.
Qed.

(** In single precision a capsule whose half height equals its radius has
    an axis of length zero, and the closest-point division is 0/0: against
    such a capsule, on either side, [CapsuleIntersection] reports no
    collision, wherever the two capsules are, and leaves NaN in every
    coordinate of the first anchor of the caller's manifold. *)
Theorem CapsuleIntersection_degenerate (volumeA volumeB : CapsuleVolume)
  (worldTransformA worldTransformB : Transform) (collisionInfo : CollisionInfo) :
  Capsule_GetHalfHeight volumeA = Capsule_GetRadius volumeA
  \/ Capsule_GetHalfHeight volumeB = Capsule_GetRadius volumeB ->
  fst (CapsuleIntersection volumeA worldTransformA volumeB worldTransformB collisionInfo)
  = false
  /\ localA (point (snd (CapsuleIntersection volumeA worldTransformA
                           volumeB worldTransformB collisionInfo))) = Vnan.
Proof.
  intros H. unfold CapsuleIntersection. cbv zeta.
  set (baseA := GetPosition worldTransformA [+] Capsule_GetOffset volumeA).
  set (baseB := GetPosition worldTransformB [+] Capsule_GetOffset volumeB).
  set (qA := Qrot (GetOrientation worldTransformA) (mkV f0 f1 f0)).
  set (qB := Qrot (GetOrientation worldTransformB) (mkV f0 f1 f0)).
  match goal with
  | |- context [ClosestPointOnLineSegment ?x ?y (ClosestPointOnLineSegment ?u ?v ?w)] =>
      set (bestB := ClosestPointOnLineSegment u v w);
      set (bestA := ClosestPointOnLineSegment x y bestB)
  end.
  assert (Hends : forall (base q : Vector3) (h : float),
            zero_or_nan (vx ((base [+] q [*] (h - h)%fl) [-] (base [-] q [*] (h - h)%fl))) = true
            /\ zero_or_nan (vy ((base [+] q [*] (h - h)%fl) [-] (base [-] q [*] (h - h)%fl))) = true
            /\ zero_or_nan (vz ((base [+] q [*] (h - h)%fl) [-] (base [-] q [*] (h - h)%fl))) = true).
  { intros base q h. cbn [Vadd Vsub Vscale vx vy vz].
    repeat split; apply ends_zero_or_nan, mul_zero_or_nan, sub_self_zero_or_nan. }
  assert (HA : bestA = Vnan).
  { destruct H as [H|H].
    - subst bestA. rewrite H.
      destruct (Hends baseA qA (Capsule_GetRadius volumeA)) as (Hx & Hy & Hz).
      apply ClosestPointOnLineSegment_degenerate; assumption.
    - assert (HB : bestB = Vnan).
      { subst bestB. rewrite H.
        destruct (Hends baseB qB (Capsule_GetRadius volumeB)) as (Hx & Hy & Hz).
        apply ClosestPointOnLineSegment_degenerate; assumption. }
      subst bestA. rewrite HB. apply ClosestPointOnLineSegment_of_nan. }
  rewrite SphereIntersection_nan by exact HA.
  cbn [fst snd set_localA set_localB localA point GetPosition SetPosition SetScale].
  split; [reflexivity|]. rewrite HA.
  change (Vnan [-] GetPosition worldTransformA [+] Capsule_GetOffset volumeA) with Vnan.
  apply Vadd_nan.
Qed.

(** Two such capsules in the same place. *)
Lemma CapsuleIntersection_degenerate_witness :
  let round := mkCapsule f1 f1 Vzero in
  fst (CapsuleIntersection round (pose_at Vzero) round (pose_at Vzero) CollisionInfo_new)
  = false
  /\ localA (point (snd (CapsuleIntersection round (pose_at Vzero) round (pose_at Vzero)
                           CollisionInfo_new))) = Vnan.
Proof.
  refine (@CapsuleIntersection_degenerate (mkCapsule f1 f1 Vzero) (mkCapsule f1 f1 Vzero)
            (pose_at Vzero) (pose_at Vzero) CollisionInfo_new _).
  left. reflexivity.
Defined.

(** The ray from (-5, 0, 0) along +x passes the unit sphere at (0, 5, 0). *)
Lemma RayIntersection_miss_keeps_record_witness :
  let o := object (VolSphere Example.unit_sphere) (pose_at (vec 0 5 0)) 1 in
  let c := mkRayCollision Vzero FLT_MAX in
  rayDistance (snd (RayIntersection Example.ray_along_x o c)) = rayDistance c
  /\ snd (RayIntersection Example.ray_along_x o c) = c.
Proof.
  refine (@RayIntersection_miss_keeps_record Binary32 Example.ray_along_x
            (object (VolSphere Example.unit_sphere) (pose_at (vec 0 5 0)) 1)
            (mkRayCollision Vzero FLT_MAX) _).
  vm_compute. reflexivity.
Defined.

(** Two upright capsules ten units apart do not touch. *)
Lemma ObjectIntersection_failure_keeps_penetration_witness :
  penetration (point (snd (ObjectIntersection
                             (object Example.capsule (pose_at Vzero) 1)
                             (object Example.capsule (pose_at (vec 10 5 0)) 2)
                             CollisionInfo_new)))
  = penetration (point CollisionInfo_new).
Proof.
  refine (@ObjectIntersection_failure_keeps_penetration Binary32 Example.capsule
            Example.capsule (pose_at Vzero) (pose_at (vec 10 5 0)) 1 2
            CollisionInfo_new _).
  vm_compute. reflexivity.
Defined.

End MoreBinary32.
